(** * core-js-101, objects tasks: Rectangle, getJSON/fromJSON and the
    CSS selector builder of [src/05-objects-tasks.js].

    The selector builder is the stateful part.  A chain handle is a JavaScript
    object holding a reference to an array of fragments, and several handles
    may hold the same reference.  The embedding therefore keeps two stores,
    one for arrays and one for objects, and threads them through every call
    with a small state-and-exception monad. *)

From Stdlib Require Import ZArith String Ascii List Sorted DecimalString PrimFloat.
From stdpp Require Import gmap list.

Import ListNotations.
Open Scope string_scope.
Open Scope list_scope.

(** ** Rectangle *)

(** The object literal [{ width, height, getArea }].  A JavaScript number is
    an IEEE 754 binary64 value, which is what [float] is; [getArea] is the
    arrow function, closed over the two arguments. *)
Record RectangleObject := mkRectangle
  { width : float; height : float; getArea : unit -> float }.

Definition Rectangle (width height : float) : RectangleObject :=
  {| width := width;
     height := height;
     getArea := fun _ => (width * height)%float |}.

(** ** Selector fragments *)

(** The object literal [{ value, unit, tag, specific }] that each of the six
    methods builds.  The field [unit] is written [unit_]: [unit] is a type of
    the standard library. *)
Record Fragment := mkFragment
  { value : string; unit_ : string; tag : bool; specific : Z }.

#[global] Instance Fragment_eq_dec : EqDecision Fragment.
Proof. solve_decision. Defined.

(** ** Stores, errors and the monad *)

Definition loc := nat.

(** What [combine] may receive: a string or a reference to an object. *)
Inductive Value :=
| VStr (s : string)
| VRef (l : loc).

(** Objects.  [Builder] is an instance of the class or one of the plain
    [context] objects its constructor returns: [elems] refers to an array,
    [created] is the flag of the same name ([false] when the property is
    absent), [args] is what [combine] stores, and [bound] is the receiver
    fixed in the object's own method properties ([None] for an instance of the
    class, whose methods are inherited and run with the object itself as
    [this]).  [Combined] is the literal [{ data, stringify }] of [combine]. *)
Inductive Obj :=
| Builder (elems : loc) (created : bool) (bound : option loc)
          (args : option (list Value))
| Combined (data : list string).

Record Heap := mkHeap
  { arrays : gmap loc (list Fragment); objects : gmap loc Obj }.

Inductive Error :=
| JsError (message : string)   (* [throw new Error(message)] *)
| TypeError                    (* raised by the runtime itself *)
| SyntaxError.                 (* raised by [JSON.parse] *)

Inductive Res (A : Type) :=
| Ok (a : A)
| Throw (e : Error).
Arguments Ok {A} a.
Arguments Throw {A} e.

(** A computation reads and writes the heap and either returns or throws; the
    heap that comes back is the heap at the point of return or of the throw. *)
Definition M (A : Type) : Type := Heap -> Res A * Heap.

#[global] Instance M_ret : MRet M := fun A a h => (Ok a, h).

#[global] Instance M_bind : MBind M := fun A B k m h =>
  match m h with
  | (Ok a, h') => k a h'
  | (Throw e, h') => (Throw e, h')
  end.

Definition throw {A} (e : Error) : M A := fun h => (Throw e, h).

Fixpoint mapM {A B} (f : A -> M B) (l : list A) : M (list B) :=
  match l with
  | [] => mret []
  | x :: l' => y ← f x; ys ← mapM f l'; mret (y :: ys)
  end.

(** *** Arrays *)

(** The literal [[]]: a new array at an unused location. *)
Definition new_array (xs : list Fragment) : M loc :=
  fun h => let a := fresh (dom (arrays h)) in
           (Ok a, mkHeap (<[a := xs]> (arrays h)) (objects h)).

Definition read_array (a : loc) : M (list Fragment) :=
  fun h => match arrays h !! a with
           | Some xs => (Ok xs, h)
           | None => (Throw TypeError, h)
           end.

Definition write_array (a : loc) (xs : list Fragment) : M unit :=
  fun h => match arrays h !! a with
           | Some _ => (Ok tt, mkHeap (<[a := xs]> (arrays h)) (objects h))
           | None => (Throw TypeError, h)
           end.

(** [a.push(x)] *)
Definition Array_push (a : loc) (x : Fragment) : M unit :=
  xs ← read_array a; write_array a (xs ++ [x]).

(** *** Objects *)

Definition new_object (o : Obj) : M loc :=
  fun h => let l := fresh (dom (objects h)) in
           (Ok l, mkHeap (arrays h) (<[l := o]> (objects h))).

Definition read_object (l : loc) : M Obj :=
  fun h => match objects h !! l with
           | Some o => (Ok o, h)
           | None => (Throw TypeError, h)
           end.

Definition write_object (l : loc) (o : Obj) : M unit :=
  fun h => match objects h !! l with
           | Some _ => (Ok tt, mkHeap (arrays h) (<[l := o]> (objects h)))
           | None => (Throw TypeError, h)
           end.

(** A property of a [Builder] is read or assigned; on a [Combined] object the
    builder's properties are absent, which the callers below turn into the
    runtime's [TypeError]. *)
Definition get_elems (l : loc) : M loc :=
  o ← read_object l;
  match o with
  | Builder e _ _ _ => mret e
  | Combined _ => throw TypeError
  end.

Definition get_created (l : loc) : M bool :=
  o ← read_object l;
  match o with
  | Builder _ c _ _ => mret c
  | Combined _ => mret false
  end.

Definition set_elems (l : loc) (e : loc) : M unit :=
  o ← read_object l;
  match o with
  | Builder _ c b g => write_object l (Builder e c b g)
  | Combined _ => throw TypeError
  end.

Definition set_created (l : loc) (c : bool) : M unit :=
  o ← read_object l;
  match o with
  | Builder e _ b g => write_object l (Builder e c b g)
  | Combined _ => throw TypeError
  end.

Definition set_args (l : loc) (g : list Value) : M unit :=
  o ← read_object l;
  match o with
  | Builder e c b _ => write_object l (Builder e c b (Some g))
  | Combined _ => throw TypeError
  end.

(** [context.m = ctx.m.bind(context)], for the ten methods at once.  Where
    [ctx.m] is the class's method the new function runs with [context] as
    [this]; where [ctx.m] is already a bound function, binding it again
    leaves its receiver as it was. *)
Definition bind_methods (context ctx : loc) : M unit :=
  c ← read_object ctx;
  o ← read_object context;
  match c, o with
  | Builder _ _ b _, Builder e cr _ g =>
      write_object context
        (Builder e cr (Some (match b with Some r => r | None => context end)) g)
  | _, _ => throw TypeError
  end.

(** ** The class CssSelectorBuilder *)

Definition duplicate_message : string :=
  "Element, id and pseudo-element should not occur more then one time inside the selector".

Definition order_message : string :=
  "Selector parts should be arranged in the following order: element, id, class, attribute, pseudo-class, pseudo-element".

(** [Array.prototype.join] on strings. *)
Definition join (sep : string) (l : list string) : string :=
  String.concat sep l.

(** How [join] renders a number that is an integer. *)
Definition Number_toString (n : Z) : string :=
  NilZero.string_of_int (Z.to_int n).

(** [Array.prototype.sort] with a comparison function: the result is the
    stable sorted arrangement, here by insertion from the right. *)
Fixpoint sort_insert {A} (cmp : A -> A -> Z) (x : A) (l : list A) : list A :=
  match l with
  | [] => [x]
  | y :: l' => if (0 <? cmp x y)%Z then y :: sort_insert cmp x l'
               else x :: y :: l'
  end.

Definition Array_sort {A} (cmp : A -> A -> Z) (l : list A) : list A :=
  foldr (sort_insert cmp) [] l.

(** Every object is truthy: the test of [.filter((el) => el)] and of
    [if (hasInElems)]. *)
Definition truthy (el : Fragment) : bool := true.

(** The test of [checkOneOfType]; the callback of [find] is kept as written. *)
Definition oneType (current : Fragment) : bool :=
  Bool.eqb (tag current) true
  || String.eqb (unit_ current) "::"
  || String.eqb (unit_ current) "#".

Definition hasInElems (elems : list Fragment) (current : Fragment)
  : option Fragment :=
  List.find
    (fun el => (Bool.eqb (tag el) (tag current)
                && String.eqb (unit_ el) (unit_ current))
               || String.eqb (unit_ el) (unit_ current))
    elems.

(** The receiver of the two checks, by the one property that they write:
    [current], which no code reads ([None]: not set).  Inside the
    constructor the receiver is the instance that [new] allocated; with
    arguments the constructor returns [context] in its place, and the
    instance reaches no object and no variable that outlives the call, so it
    is kept as a value beside the store. *)
Record Instance := mkInstance { current : option Fragment }.

Definition new_instance : Instance := {| current := None |}.

(** A method of the instance: from the receiver and the store to the
    outcome, the receiver after the call and the store after the call.  What
    was written before a [throw] stays written. *)
Definition Method (A : Type) : Type :=
  Instance → Heap → Res A * Instance * Heap.

(** [this.current = current] *)
Definition set_current (this : Instance) (current : Fragment) : Instance :=
  mkInstance (Some current).

(** [this.current = current; rest], for a [rest] that does not name [this] *)
Definition assign_current {A} (current : Fragment) (rest : M A) : Method A :=
  λ this h, let '(r, h') := rest h in (r, set_current this current, h').

(** [this.m(...)] inside the constructor: an exception leaves the
    constructor, and the receiver with it. *)
Definition call_method {A} (m : Method A) (this : Instance)
    : M (A * Instance) :=
  λ h, let '(r, this', h') := m this h in
       (match r with Ok a => Ok (a, this') | Throw e => Throw e end, h').

(** [checkOneOfType(elems, current)] *)
Definition checkOneOfType (elems : loc) (current : Fragment) : Method unit :=
  assign_current current (
    els ← read_array elems;
    if oneType current then
      match hasInElems els current with
      | Some el => if truthy el then throw (JsError duplicate_message)
                   else mret tt
      | None => mret tt
      end
    else mret tt).

(** The comparison function [(a, b) => a.specific - b.specific]. *)
Definition by_specific (a b : Fragment) : Z := (specific a - specific b)%Z.

Definition etalonOrder (items : list Fragment) : list Z :=
  map specific (List.filter truthy (Array_sort by_specific items)).

Definition currentOrder (items : list Fragment) : list Z :=
  map specific items.

(** [checkOrder(elems, current)] *)
Definition checkOrder (elems : loc) (current : Fragment) : Method unit :=
  assign_current current (
    els ← read_array elems;
    let items := (els ++ [current]) in
    if String.eqb (join "" (map Number_toString (etalonOrder items)))
                  (join "" (map Number_toString (currentOrder items)))
    then mret tt
    else throw (JsError order_message)).

(** [new CssSelectorBuilder(current, ctx)].  Without arguments the instance
    itself is the result; with both, the result is the object [context]. *)
Definition CssSelectorBuilder_new (a : option (Fragment * loc)) : M loc :=
  match a with
  | None =>
      elems ← new_array [];
      new_object (Builder elems false None None)
  | Some (current, ctx) =>
      let this := new_instance in
      c ← read_object ctx;
      context ← new_object c;                     (* { ...ctx } *)
      (* the copy of an instance has no method of its own until
         [bind_methods]; none is called on it in between *)
      created ← get_created context;
      (if negb created then
         elems ← new_array []; set_elems context elems
       else
         elems ← get_elems context;
         '(_, this) ← call_method (checkOneOfType elems current) this;
         '(_, this) ← call_method (checkOrder elems current) this;
         mret tt);;
      elems ← get_elems context;
      Array_push elems current;;
      bind_methods context ctx;;
      set_created context true;;
      mret context
  end.

(** [current.map((el) => el.unit + el.value).join('')] *)
Definition render (current : list Fragment) : string :=
  join "" (map (fun el => (unit_ el ++ value el)%string) current).

(** [stringify()] of the class, run with receiver [this]. *)
Definition stringify (this : loc) : M string :=
  elems ← get_elems this;
  current ← read_array elems;
  write_array elems [];;                           (* this.elems.length = 0 *)
  mret (render current).

Definition element (this : loc) (el : string) : M loc :=
  let obj := {| value := el; unit_ := ""; tag := true; specific := 0 |} in
  CssSelectorBuilder_new (Some (obj, this)).

Definition id_ (this : loc) (id : string) : M loc :=
  let obj := {| value := id; unit_ := "#"; tag := false; specific := 1 |} in
  CssSelectorBuilder_new (Some (obj, this)).

Definition class_ (this : loc) (cl : string) : M loc :=
  let obj := {| value := cl; unit_ := "."; tag := false; specific := 2 |} in
  CssSelectorBuilder_new (Some (obj, this)).

Definition attr (this : loc) (ar : string) : M loc :=
  let obj := {| value := ("[" ++ ar ++ "]")%string; unit_ := ""; tag := false;
                specific := 3 |} in
  CssSelectorBuilder_new (Some (obj, this)).

Definition pseudoClass (this : loc) (pseudoCl : string) : M loc :=
  let obj := {| value := pseudoCl; unit_ := ":"; tag := false;
                specific := 4 |} in
  CssSelectorBuilder_new (Some (obj, this)).

Definition pseudoElement (this : loc) (pseudoEl : string) : M loc :=
  let obj := {| value := pseudoEl; unit_ := "::"; tag := false;
                specific := 5 |} in
  CssSelectorBuilder_new (Some (obj, this)).

(** ** Method calls on a handle *)

(** The receiver with which a method of the handle [o] runs: the one fixed in
    its bound methods, or the handle itself. *)
Definition receiver (o : loc) : M loc :=
  obj ← read_object o;
  match obj with
  | Builder _ _ (Some r) _ => mret r
  | Builder _ _ None _ => mret o
  | Combined _ => throw TypeError
  end.

(** [stringify()] of the object that [combine] returns:
    [this.data.flat().join('')]; on an array of strings [flat] changes
    nothing. *)
Definition Combined_stringify (this : loc) : M string :=
  obj ← read_object this;
  match obj with
  | Combined data => mret (join "" data)
  | Builder _ _ _ _ => throw TypeError
  end.

(** [o.stringify()] *)
Definition call_stringify (o : loc) : M string :=
  obj ← read_object o;
  match obj with
  | Builder _ _ _ _ => this ← receiver o; stringify this
  | Combined _ => Combined_stringify o
  end.

(** The callback of [args.map] in [combine]: a string gets a space on each
    side, an object with a [stringify] is rendered by calling it.  (The last
    branch of the callback returns any other value as it is; [Value] has no
    such value.) *)
Definition combine_item (item : Value) : M string :=
  match item with
  | VStr s => mret (" " ++ s ++ " ")%string
  | VRef o => call_stringify o
  end.

(** [combine(...args)] of the class, run with receiver [this]. *)
Definition combine (this : loc) (args : list Value) : M loc :=
  set_args this args;;
  data ← mapM combine_item args;
  new_object (Combined data).

(** The six fragment-adding methods, by kind. *)
Inductive Kind :=
| Element | Id | Class_ | Attr | PseudoClass | PseudoElement.

#[global] Instance Kind_eq_dec : EqDecision Kind.
Proof. solve_decision. Defined.

Definition method (k : Kind) : loc -> string -> M loc :=
  match k with
  | Element => element
  | Id => id_
  | Class_ => class_
  | Attr => attr
  | PseudoClass => pseudoClass
  | PseudoElement => pseudoElement
  end.

(** [o.element(v)], [o.id(v)], ... *)
Definition call (k : Kind) (o : loc) (v : string) : M loc :=
  this ← receiver o; method k this v.

(** [o.combine(...args)] *)
Definition call_combine (o : loc) (args : list Value) : M loc :=
  this ← receiver o; combine this args.

(** [const cssSelectorBuilder = new CssSelectorBuilder()], on the empty heap. *)
Definition empty_heap : Heap := mkHeap ∅ ∅.

Definition cssSelectorBuilder : loc :=
  match CssSelectorBuilder_new None empty_heap with
  | (Ok l, _) => l
  | (Throw _, _) => 0
  end.

Definition initial_heap : Heap := snd (CssSelectorBuilder_new None empty_heap).


(** The object literal of each method, by kind. *)
Definition fragment (k : Kind) (v : string) : Fragment :=
  match k with
  | Element => {| value := v; unit_ := ""; tag := true; specific := 0 |}
  | Id => {| value := v; unit_ := "#"; tag := false; specific := 1 |}
  | Class_ => {| value := v; unit_ := "."; tag := false; specific := 2 |}
  | Attr => {| value := ("[" ++ v ++ "]")%string; unit_ := ""; tag := false;
               specific := 3 |}
  | PseudoClass => {| value := v; unit_ := ":"; tag := false; specific := 4 |}
  | PseudoElement => {| value := v; unit_ := "::"; tag := false;
                        specific := 5 |}
  end.

(** The outcome of the two checks on the contents of the array: the message
    of the error thrown, if any. *)
Definition check (els : list Fragment) (current : Fragment) : option string :=
  if oneType current && bool_decide (is_Some (hasInElems els current))
  then Some duplicate_message
  else
    let items := (els ++ [current]) in
    if String.eqb (join "" (map Number_toString (etalonOrder items)))
                  (join "" (map Number_toString (currentOrder items)))
    then None else Some order_message.

(** ** Sequences of calls *)

(** What a caller can do with the handles it holds; an exception is caught by
    the caller and the heap stays as the throw left it. *)
Inductive Op :=
| OpCall (k : Kind) (o : loc) (v : string)
| OpStringify (o : loc)
| OpCombine (o : loc) (args : list Value).

Definition exec (op : Op) (h : Heap) : Heap :=
  match op with
  | OpCall k o v => snd (call k o v h)
  | OpStringify o => snd (call_stringify o h)
  | OpCombine o args => snd (call_combine o args h)
  end.

Definition run_ops (ops : list Op) (h : Heap) : Heap :=
  foldl (fun h op => exec op h) h ops.

(** The heaps a program can be in: the module's initial heap after any
    sequence of calls. *)
Definition reachable (h : Heap) : Prop :=
  ∃ ops, h = run_ops ops initial_heap.

(** The handle [o] is a builder object whose array holds [xs]. *)
Definition chain_of (h : Heap) (o : loc) (xs : list Fragment) : Prop :=
  ∃ e c b g, objects h !! o = Some (Builder e c b g) ∧ arrays h !! e = Some xs.

(** A chain of fragment-adding calls [o.k1(v1).k2(v2)...]. *)
Fixpoint chain (calls : list (Kind * string)) (o : loc) : M loc :=
  match calls with
  | [] => mret o
  | (k, v) :: calls' => o' ← call k o v; chain calls' o'
  end.

(** ** Well-formed heaps *)

(** A fragment that one of the six methods built. *)
Definition built (f : Fragment) : Prop := ∃ k v, f = fragment k v.

(** What every heap that the module can reach satisfies.  The facade is an
    instance without [created]; such an object has inherited methods and an
    empty array.  Every other builder is a [context]: its methods are bound to
    a [context] with the same array, which is bound to itself; and no
    [context] shares its array with an instance. *)
Record wf (h : Heap) : Prop := mk_wf {
  wf_root : ∃ e g,
    objects h !! cssSelectorBuilder = Some (Builder e false None g);
  wf_facade : ∀ o e b g,
    objects h !! o = Some (Builder e false b g) →
    b = None ∧ arrays h !! e = Some [];
  wf_context : ∀ o e b g,
    objects h !! o = Some (Builder e true b g) →
    ∃ r g', b = Some r ∧ objects h !! r = Some (Builder e true (Some r) g')
            ∧ is_Some (arrays h !! e);
  wf_sep : ∀ o o' e b g b' g',
    objects h !! o = Some (Builder e false b g) →
    objects h !! o' = Some (Builder e true b' g') → False;
  wf_built : ∀ a xs, arrays h !! a = Some xs → Forall built xs
}.

(** The kinds of which a selector may hold one fragment only. *)
Definition one_of_a_kind (k : Kind) : bool :=
  match k with Element | Id | PseudoElement => true | _ => false end.

Definition has_kind (k : Kind) (xs : list Fragment) : Prop :=
  ∃ v, fragment k v ∈ xs.

Definition ranks_sorted (l : list Fragment) : Prop :=
  StronglySorted Z.le (map specific l).

(** The values of [specific] that the six methods use. *)
Definition is_rank (z : Z) : Prop := (0 <= z <= 5)%Z.

(** The array that the handle [o] refers to. *)
Definition elems_of (h : Heap) (o : loc) : option loc :=
  match objects h !! o with
  | Some (Builder e _ _ _) => Some e
  | _ => None
  end.

(** ** The text of a selector, as the specification words it *)

(** The glyph written before the value of a fragment of each kind. *)
Definition prefixGlyph (k : Kind) : string :=
  match k with
  | Element => ""
  | Id => "#"
  | Class_ => "."
  | Attr => ""
  | PseudoClass => ":"
  | PseudoElement => "::"
  end.

(** The value as rendered: an attribute expression is wrapped in brackets. *)
Definition payload (k : Kind) (v : string) : string :=
  match k with
  | Attr => "[" ++ v ++ "]"
  | _ => v
  end%string.

(** Glyph and value of every call, in order, with nothing in between. *)
Definition selector_text (calls : list (Kind * string)) : string :=
  foldr (fun c acc => (prefixGlyph c.1 ++ payload c.1 c.2 ++ acc)%string)
        "" calls.

Definition fragments (calls : list (Kind * string)) : list Fragment :=
  map (fun c => fragment c.1 c.2) calls.

(** The pieces of a combined text, as the specification words them: in
    argument order, a token with one space on each side, a selector by its
    rendering, which empties its array for the arguments after it. *)
Fixpoint pieces (objs : gmap loc Obj) (arrs : gmap loc (list Fragment))
    (args : list Value) : list string :=
  match args with
  | [] => []
  | VStr t :: args' => (" " ++ t ++ " ")%string :: pieces objs arrs args'
  | VRef l :: args' =>
      match objs !! l with
      | Some (Builder e _ _ _) =>
          render (default [] (arrs !! e))
          :: pieces objs (<[e := []]> arrs) args'
      | Some (Combined d) => join "" d :: pieces objs arrs args'
      | None => []
      end
  end.

Definition concat_text (l : list string) : string :=
  foldr String.append "" l.

(** Two object stores in which every location holds the same kind of object
    with the same array or the same data. *)
Definition same_targets (objs objs' : gmap loc Obj) : Prop :=
  ∀ l, match objs !! l, objs' !! l with
       | Some (Builder e _ _ _), Some (Builder e' _ _ _) => e = e'
       | Some (Combined d), Some (Combined d') => d = d'
       | None, None => True
       | _, _ => False
       end.

(** ** Heaps of the examples *)

(** The attribute expression [href$=".png"] and the selector
    [a[href$=".png"]:focus]; character 34 is the double quote. *)
Definition href_png : string :=
  "href$=" ++ String "034" (".png" ++ String "034" "").

Definition a_href_png_focus : string :=
  "a[href$=" ++ String "034" (".png" ++ String "034" "]:focus").

(** After [attr('x')], [class('c')], [id('a')] and [element('e')] on the
    facade; the new handle is at location 1 each time. *)
Definition heap_attr : Heap :=
  run_ops [OpCall Attr cssSelectorBuilder "x"] initial_heap.

Definition heap_class : Heap :=
  run_ops [OpCall Class_ cssSelectorBuilder "c"] initial_heap.

Definition heap_id : Heap :=
  run_ops [OpCall Id cssSelectorBuilder "a"] initial_heap.

Definition heap_element : Heap :=
  run_ops [OpCall Element cssSelectorBuilder "e"] initial_heap.

(** After [id('a').class('c')]; the second handle is at location 2. *)
Definition heap_id_class : Heap :=
  run_ops [OpCall Id cssSelectorBuilder "a"; OpCall Class_ 1 "c"]
          initial_heap.

(** After the rejected [id('a').id('b')]. *)
Definition heap_id_failed : Heap := exec (OpCall Id 1 "b") heap_id.

(** After [element('e').id('x')]; the second handle is at location 2. *)
Definition heap_element_extended : Heap :=
  exec (OpCall Id 1 "x") heap_element.

(** After [element('a').id('x')]. *)
Definition heap_element_id : Heap :=
  run_ops [OpCall Element cssSelectorBuilder "a"; OpCall Id 1 "x"]
          initial_heap.

(** After [element('div').id('main')] and [element('table').id('data')], the
    arguments of the [combine] example; the two chains end at 2 and 4. *)
Definition heap_two_chains : Heap :=
  run_ops [OpCall Element cssSelectorBuilder "div"; OpCall Id 1 "main";
           OpCall Element cssSelectorBuilder "table"; OpCall Id 3 "data"]
          initial_heap.

Definition combine_args : list Value := [VRef 2; VStr "+"; VRef 4].

Definition heap_combined : Heap :=
  exec (OpCombine cssSelectorBuilder combine_args) heap_two_chains.

(** ** getJSON and fromJSON *)

(** The values that JSON text represents, as trees: no cycle can occur.
    A number is a binary64 float, as every number of the language is. *)
#[warnings="-register-all"]
Inductive Json :=
| JNull
| JBool (b : bool)
| JNum (n : float)
| JStr (s : string)
| JArr (items : list Json)
| JObj (fields : list (string * Json)).

(** A prototype object, by the names of the operations defined on it. *)
Record Prototype := mkPrototype { operations : list string }.

(** A value at run time: its data and, for an object or an array, what
    [Object.setPrototypeOf] put in its prototype slot ([None]: the built-in
    prototype that [JSON.parse] leaves there). *)
Record JsValue := mkJsValue { data : Json; proto : option Prototype }.

(** [Object.setPrototypeOf(obj, p)] for an object [p]: [null] is not
    coercible to an object and raises a [TypeError]; a number, string or
    boolean is returned as it is; an object or array gets the prototype. *)
Definition Object_setPrototypeOf (obj : JsValue) (p : Prototype)
  : Res JsValue :=
  match data obj with
  | JNull => Throw TypeError
  | JBool _ | JNum _ | JStr _ => Ok obj
  | JArr _ | JObj _ => Ok {| data := data obj; proto := Some p |}
  end.

(** The names of the own properties of a value. *)
Definition own_keys (v : Json) : list string :=
  match v with
  | JObj fields => map fst fields
  | JArr items =>
      map (fun i => Number_toString (Z.of_nat i)) (seq 0 (length items))
      ++ ["length"]
  | _ => []
  end.

(** Property lookup of the name [m] on [x], where it yields an operation of
    a prototype set by [Object.setPrototypeOf]: an own property comes first
    and hides the prototype's. *)
Definition operation_of (x : JsValue) (m : string) : option Prototype :=
  if bool_decide (m ∈ own_keys (data x)) then None
  else match proto x with
       | Some p => if bool_decide (m ∈ operations p) then Some p else None
       | None => None
       end.

Definition is_object (v : Json) : bool :=
  match v with
  | JArr _ | JObj _ => true
  | _ => false
  end.

(** [JSON.stringify] and [JSON.parse] belong to the runtime, not to the
    repository: the two functions take them as parameters, and nothing is
    assumed of them.  [JSON_parse] answers [None] where the runtime throws a
    [SyntaxError]. *)
Section JsonBridge.

Variable JSON_stringify : Json -> string.
Variable JSON_parse : string -> option Json.

Definition getJSON (obj : Json) : string := JSON_stringify obj.

Definition fromJSON (p : Prototype) (json : string) : Res JsValue :=
  match JSON_parse json with
  | None => Throw SyntaxError
  | Some v =>
      let obj := {| data := v; proto := None |} in
      match Object_setPrototypeOf obj p with
      | Ok obj' => Ok obj'
      | Throw e => Throw e
      end
  end.

End JsonBridge.

(** ** Further notions for the selector builder *)

(** The value of [specific] of each kind. *)
Definition rank (k : Kind) : Z :=
  match k with
  | Element => 0 | Id => 1 | Class_ => 2
  | Attr => 3 | PseudoClass => 4 | PseudoElement => 5
  end.

(** The ranks of element, id and pseudo-element. *)
Definition single_rank (z : Z) : bool :=
  (z =? 0)%Z || (z =? 1)%Z || (z =? 5)%Z.

(** Ranks in non-decreasing order, and those of element, id and
    pseudo-element at most once each. *)
Definition well_ordered (xs : list Fragment) : Prop :=
  ranks_sorted xs ∧ NoDup (List.filter single_rank (map specific xs)).

(** The fragments on which [checkOneOfType] stops a new fragment of kind
    [k]: [find] compares [unit] alone, and an attribute has the [unit] of an
    element. *)
Definition clashes (k : Kind) (xs : list Fragment) : Prop :=
  match k with
  | Element => has_kind Element xs ∨ has_kind Attr xs
  | Id => has_kind Id xs
  | PseudoElement => has_kind PseudoElement xs
  | _ => False
  end.

Definition all_arrays (P : list Fragment → Prop) (h : Heap) : Prop :=
  ∀ a xs, arrays h !! a = Some xs → P xs.

(** The array store after the arguments of [combine] were rendered in
    turn: the array of every chain among them is empty. *)
Fixpoint consumed (objs : gmap loc Obj) (arrs : gmap loc (list Fragment))
    (args : list Value) : gmap loc (list Fragment) :=
  match args with
  | [] => arrs
  | VStr _ :: args' => consumed objs arrs args'
  | VRef l :: args' =>
      match objs !! l with
      | Some (Builder e _ _ _) => consumed objs (<[e := []]> arrs) args'
      | _ => consumed objs arrs args'
      end
  end.

(** The text of one argument of [combine], taken on its own. *)
Definition own_text (objs : gmap loc Obj) (arrs : gmap loc (list Fragment))
    (item : Value) : string :=
  match item with
  | VStr t => (" " ++ t ++ " ")%string
  | VRef l =>
      match objs !! l with
      | Some (Builder e _ _ _) => render (default [] (arrs !! e))
      | Some (Combined d) => join "" d
      | None => ""
      end
  end.

(** The arrays of the chains among the arguments, in argument order. *)
Fixpoint arg_arrays (objs : gmap loc Obj) (args : list Value) : list loc :=
  match args with
  | [] => []
  | VStr _ :: args' => arg_arrays objs args'
  | VRef l :: args' =>
      match objs !! l with
      | Some (Builder e _ _ _) => e :: arg_arrays objs args'
      | _ => arg_arrays objs args'
      end
  end.

(** What rendering reads of an object: the array of a builder, the data of
    a combined selector. *)
Definition target (objs : gmap loc Obj) (l : loc)
  : option (loc + list string) :=
  match objs !! l with
  | Some (Builder e _ _ _) => Some (inl e)
  | Some (Combined d) => Some (inr d)
  | None => None
  end.

(** Every reference among the arguments is to an existing object. *)
Definition refs_exist (objs : gmap loc Obj) (args : list Value) : Prop :=
  ∀ l, VRef l ∈ args → is_Some (objs !! l).

(** The two parts of [combine(div#main, '+', combine(table#data))]. *)
Definition nested_args0 : list Value := [VRef 2; VStr "+"].

Definition nested_args1 : list Value := [VRef 4].

(** ** Reasoning about computations *)

Lemma bind_unfold {A B} (m : M A) (k : A → M B) h :
  (m ≫= k) h = match m h with
               | (Ok a, h') => k a h'
               | (Throw e, h') => (Throw e, h')
               end.
Proof. reflexivity. Qed.

Lemma ret_unfold {A} (a : A) h : (mret a : M A) h = (Ok a, h).
Proof. reflexivity. Qed.

Lemma throw_unfold {A} e h : (throw e : M A) h = (Throw e, h).
Proof. reflexivity. Qed.

Lemma read_object_Some h l o :
  objects h !! l = Some o → read_object l h = (Ok o, h).
Proof. intros H. unfold read_object. by rewrite H. Qed.

Lemma read_array_Some h a xs :
  arrays h !! a = Some xs → read_array a h = (Ok xs, h).
Proof. intros H. unfold read_array. by rewrite H. Qed.

Lemma write_array_Some h a xs ys :
  arrays h !! a = Some xs →
  write_array a ys h = (Ok tt, mkHeap (<[a := ys]> (arrays h)) (objects h)).
Proof. intros H. unfold write_array. by rewrite H. Qed.

Lemma write_object_Some h l o o' :
  objects h !! l = Some o →
  write_object l o' h = (Ok tt, mkHeap (arrays h) (<[l := o']> (objects h))).
Proof. intros H. unfold write_object. by rewrite H. Qed.

Lemma fresh_objects_None h : objects h !! fresh (dom (objects h)) = None.
Proof. apply not_elem_of_dom, is_fresh. Qed.

Lemma fresh_arrays_None h : arrays h !! fresh (dom (arrays h)) = None.
Proof. apply not_elem_of_dom, is_fresh. Qed.

Lemma fresh_objects_ne h l o :
  objects h !! l = Some o → l ≠ fresh (dom (objects h)).
Proof. intros H ->. by rewrite fresh_objects_None in H. Qed.

Lemma fresh_arrays_ne h a xs :
  arrays h !! a = Some xs → a ≠ fresh (dom (arrays h)).
Proof. intros H ->. by rewrite fresh_arrays_None in H. Qed.

Lemma method_fragment k this v :
  method k this v = CssSelectorBuilder_new (Some (fragment k v, this)).
Proof. by destruct k. Qed.

Lemma checkOneOfType_Some h this e xs cur :
  arrays h !! e = Some xs →
  checkOneOfType e cur this h =
    (if oneType cur && bool_decide (is_Some (hasInElems xs cur))
     then Throw (JsError duplicate_message) else Ok tt,
     set_current this cur, h).
Proof.
  intros H. unfold checkOneOfType, assign_current.
  rewrite bind_unfold, (read_array_Some _ _ _ H).
  destruct (oneType cur); simpl; [|done].
  by destruct (hasInElems xs cur) as [el|].
Qed.

Lemma checkOrder_Some h this e xs cur :
  arrays h !! e = Some xs →
  checkOrder e cur this h =
    (if String.eqb
          (join "" (map Number_toString (etalonOrder (xs ++ [cur]))))
          (join "" (map Number_toString (currentOrder (xs ++ [cur]))))
     then Ok tt else Throw (JsError order_message),
     set_current this cur, h).
Proof.
  intros H. unfold checkOrder, assign_current.
  rewrite bind_unfold, (read_array_Some _ _ _ H).
  by destruct (String.eqb _ _).
Qed.

Lemma get_elems_Builder h l e c b g :
  objects h !! l = Some (Builder e c b g) → get_elems l h = (Ok e, h).
Proof. intros H. unfold get_elems. by rewrite bind_unfold, (read_object_Some _ _ _ H). Qed.

Lemma get_created_Builder h l e c b g :
  objects h !! l = Some (Builder e c b g) → get_created l h = (Ok c, h).
Proof. intros H. unfold get_created. by rewrite bind_unfold, (read_object_Some _ _ _ H). Qed.

Lemma set_elems_Builder h l e c b g e' :
  objects h !! l = Some (Builder e c b g) →
  set_elems l e' h = (Ok tt, mkHeap (arrays h) (<[l := Builder e' c b g]> (objects h))).
Proof.
  intros H. unfold set_elems.
  by rewrite bind_unfold, (read_object_Some _ _ _ H), (write_object_Some _ _ _ _ H).
Qed.

Lemma set_created_Builder h l e c b g c' :
  objects h !! l = Some (Builder e c b g) →
  set_created l c' h = (Ok tt, mkHeap (arrays h) (<[l := Builder e c' b g]> (objects h))).
Proof.
  intros H. unfold set_created.
  by rewrite bind_unfold, (read_object_Some _ _ _ H), (write_object_Some _ _ _ _ H).
Qed.

Lemma set_args_Builder h l e c b g g' :
  objects h !! l = Some (Builder e c b g) →
  set_args l g' h = (Ok tt, mkHeap (arrays h) (<[l := Builder e c b (Some g')]> (objects h))).
Proof.
  intros H. unfold set_args.
  by rewrite bind_unfold, (read_object_Some _ _ _ H), (write_object_Some _ _ _ _ H).
Qed.

Lemma bind_methods_Builder h context ctx e c b g e' c' b' g' :
  objects h !! ctx = Some (Builder e c b g) →
  objects h !! context = Some (Builder e' c' b' g') →
  bind_methods context ctx h =
    (Ok tt, mkHeap (arrays h)
              (<[context := Builder e' c' (Some (default context b)) g']> (objects h))).
Proof.
  intros H1 H2. unfold bind_methods.
  rewrite bind_unfold, (read_object_Some _ _ _ H1).
  rewrite bind_unfold, (read_object_Some _ _ _ H2).
  rewrite (write_object_Some _ _ _ _ H2). by destruct b.
Qed.

Lemma Array_push_Some h a xs x :
  arrays h !! a = Some xs →
  Array_push a x h = (Ok tt, mkHeap (<[a := xs ++ [x]]> (arrays h)) (objects h)).
Proof.
  intros H. unfold Array_push.
  by rewrite bind_unfold, (read_array_Some _ _ _ H), (write_array_Some _ _ _ _ H).
Qed.

Lemma new_from_facade h ctx e b g cur :
  objects h !! ctx = Some (Builder e false b g) →
  CssSelectorBuilder_new (Some (cur, ctx)) h =
    (Ok (fresh (dom (objects h))),
     mkHeap (<[fresh (dom (arrays h)) := [cur]]> (arrays h))
            (<[fresh (dom (objects h)) :=
                 Builder (fresh (dom (arrays h))) true
                         (Some (default (fresh (dom (objects h))) b)) g]>
               (objects h))).
Proof.
  intros H. unfold CssSelectorBuilder_new.
  pose proof (fresh_objects_ne _ _ _ H) as Hne.
  set (o := fresh (dom (objects h))) in *.
  set (a := fresh (dom (arrays h))) in *.
  rewrite bind_unfold, (read_object_Some _ _ _ H).
  rewrite bind_unfold. unfold new_object at 1. fold o. cbv zeta.
  rewrite bind_unfold.
  erewrite get_created_Builder by (simpl; apply lookup_insert_eq).
  rewrite bind_unfold. cbn [negb].
  rewrite bind_unfold. unfold new_array at 1. cbn [arrays objects]. fold a. cbv zeta.
  erewrite set_elems_Builder by (simpl; apply lookup_insert_eq).
  cbn [arrays objects]. rewrite insert_insert_eq.
  rewrite bind_unfold.
  erewrite get_elems_Builder by (simpl; apply lookup_insert_eq).
  rewrite bind_unfold.
  erewrite Array_push_Some by (simpl; apply lookup_insert_eq).
  cbn [arrays objects]. rewrite insert_insert_eq.
  rewrite bind_unfold.
  erewrite bind_methods_Builder; [| simpl; rewrite lookup_insert_ne by done; exact H | simpl; apply lookup_insert_eq].
  cbn [arrays objects]. rewrite insert_insert_eq.
  rewrite bind_unfold.
  erewrite set_created_Builder by (simpl; apply lookup_insert_eq).
  cbn [arrays objects]. rewrite insert_insert_eq.
  reflexivity.
Qed.

Lemma new_from_context h ctx e b g xs cur :
  objects h !! ctx = Some (Builder e true b g) →
  arrays h !! e = Some xs →
  CssSelectorBuilder_new (Some (cur, ctx)) h =
    match check xs cur with
    | Some msg =>
        (Throw (JsError msg),
         mkHeap (arrays h)
                (<[fresh (dom (objects h)) := Builder e true b g]> (objects h)))
    | None =>
        (Ok (fresh (dom (objects h))),
         mkHeap (<[e := xs ++ [cur]]> (arrays h))
                (<[fresh (dom (objects h)) :=
                     Builder e true (Some (default (fresh (dom (objects h))) b)) g]>
                   (objects h)))
    end.
Proof.
  intros H Ha. unfold CssSelectorBuilder_new, check. cbv zeta.
  pose proof (fresh_objects_ne _ _ _ H) as Hne.
  set (o := fresh (dom (objects h))) in *.
  rewrite bind_unfold, (read_object_Some _ _ _ H).
  rewrite bind_unfold. unfold new_object at 1. fold o. cbv zeta.
  rewrite bind_unfold.
  erewrite get_created_Builder by (simpl; apply lookup_insert_eq).
  rewrite bind_unfold. cbn [negb].
  rewrite bind_unfold.
  erewrite get_elems_Builder by (simpl; apply lookup_insert_eq).
  rewrite bind_unfold.
  unfold call_method at 1.
  erewrite checkOneOfType_Some by (simpl; exact Ha).
  destruct (oneType cur && _); [done|].
  rewrite bind_unfold. unfold call_method at 1.
  erewrite checkOrder_Some by (simpl; exact Ha).
  destruct (String.eqb _ _); [|done].
  rewrite ret_unfold.
  rewrite bind_unfold.
  erewrite get_elems_Builder by (simpl; apply lookup_insert_eq).
  rewrite bind_unfold.
  erewrite Array_push_Some by (simpl; exact Ha).
  cbn [arrays objects].
  rewrite bind_unfold.
  erewrite bind_methods_Builder; [| simpl; rewrite lookup_insert_ne by done; exact H | simpl; apply lookup_insert_eq].
  cbn [arrays objects]. rewrite insert_insert_eq.
  rewrite bind_unfold.
  erewrite set_created_Builder by (simpl; apply lookup_insert_eq).
  cbn [arrays objects]. rewrite insert_insert_eq.
  reflexivity.
Qed.

Lemma receiver_Builder h o e c b g :
  objects h !! o = Some (Builder e c b g) →
  receiver o h = (Ok (default o b), h).
Proof.
  intros H. unfold receiver.
  rewrite bind_unfold, (read_object_Some _ _ _ H). by destruct b.
Qed.

Lemma stringify_Builder h this e c b g xs :
  objects h !! this = Some (Builder e c b g) →
  arrays h !! e = Some xs →
  stringify this h =
    (Ok (join "" (map (fun el => (unit_ el ++ value el)%string) xs)),
     mkHeap (<[e := []]> (arrays h)) (objects h)).
Proof.
  intros H Ha. unfold stringify.
  rewrite bind_unfold, (get_elems_Builder _ _ _ _ _ _ H).
  rewrite bind_unfold, (read_array_Some _ _ _ Ha).
  rewrite bind_unfold, (write_array_Some _ _ _ _ Ha).
  reflexivity.
Qed.

Lemma initial_heap_eq :
  initial_heap = mkHeap {[0 := []]} {[0 := Builder 0 false None None]}.
Proof. reflexivity. Qed.

Lemma wf_initial : wf initial_heap.
Proof.
  rewrite initial_heap_eq. split; cbn [arrays objects].
  - by exists 0, None.
  - intros o e b g H. apply lookup_singleton_Some in H as [<- [= <- <- <-]].
    split; [done|]. apply lookup_singleton_eq.
  - intros o e b g H. by apply lookup_singleton_Some in H as [<- [=]].
  - intros o o' e b g b' g' _ H. by apply lookup_singleton_Some in H as [<- [=]].
  - intros a xs H. apply lookup_singleton_Some in H as [<- <-]. constructor.
Qed.

Ltac split_lookup H :=
  rewrite lookup_insert in H; case_decide; simplify_eq.

Lemma wf_set_args h l e c b g g' :
  wf h → objects h !! l = Some (Builder e c b g) →
  wf (mkHeap (arrays h) (<[l := Builder e c b g']> (objects h))).
Proof.
  intros [Hr Hf Hc Hs Hb] Hl. split; cbn [arrays objects].
  - destruct Hr as (e0 & g0 & Hr).
    destruct (decide (l = cssSelectorBuilder)) as [->|Hne].
    + rewrite Hr in Hl. simplify_eq. exists e, g'. apply lookup_insert_eq.
    + exists e0, g0. by rewrite lookup_insert_ne.
  - intros o e1 b1 g1 H. split_lookup H; eauto.
  - intros o e1 b1 g1 H.
    assert (∃ g0, objects h !! o = Some (Builder e1 true b1 g0)) as [g0 Ho].
    { rewrite lookup_insert in H. case_decide; simplify_eq; eauto. }
    destruct (Hc _ _ _ _ Ho) as (r & g2 & -> & Hr' & Ha).
    exists r. destruct (decide (l = r)) as [->|Hne].
    + exists g'. rewrite lookup_insert_eq. by rewrite Hr' in Hl; simplify_eq.
    + exists g2. by rewrite lookup_insert_ne.
  - intros o o' e1 b1 g1 b2 g2 H1 H2.
    split_lookup H1; split_lookup H2; eauto.
  - done.
Qed.

Lemma wf_copy_object h l o e b g :
  wf h → objects h !! l = Some (Builder e true b g) → objects h !! o = None →
  wf (mkHeap (arrays h) (<[o := Builder e true b g]> (objects h))).
Proof.
  intros [Hr Hf Hc Hs Hb] Hl Ho. split; cbn [arrays objects].
  - destruct Hr as (e0 & g0 & Hr). exists e0, g0.
    rewrite lookup_insert_ne; [done|]. intros ->. congruence.
  - intros o1 e1 b1 g1 H. split_lookup H; eauto.
  - intros o1 e1 b1 g1 H.
    assert (∃ l1, objects h !! l1 = Some (Builder e1 true b1 g1)) as [l1 Hl1].
    { split_lookup H; eauto. }
    destruct (Hc _ _ _ _ Hl1) as (r & g2 & -> & Hr' & Ha).
    exists r, g2. split; [done|]. split; [|done].
    rewrite lookup_insert_ne; [done|]. intros ->. congruence.
  - intros o1 o2 e1 b1 g1 b2 g2 H1 H2.
    split_lookup H1; split_lookup H2; eauto.
  - done.
Qed.

Lemma wf_new_combined h o d :
  wf h → objects h !! o = None →
  wf (mkHeap (arrays h) (<[o := Combined d]> (objects h))).
Proof.
  intros [Hr Hf Hc Hs Hb] Ho. split; cbn [arrays objects].
  - destruct Hr as (e0 & g0 & Hr). exists e0, g0.
    rewrite lookup_insert_ne; [done|]. intros ->. congruence.
  - intros o1 e1 b1 g1 H. split_lookup H; eauto.
  - intros o1 e1 b1 g1 H. split_lookup H.
    destruct (Hc _ _ _ _ H) as (r & g2 & -> & Hr' & Ha).
    exists r, g2. split; [done|]. split; [|done].
    rewrite lookup_insert_ne; [done|]. intros ->. congruence.
  - intros o1 o2 e1 b1 g1 b2 g2 H1 H2.
    split_lookup H1; split_lookup H2; eauto.
  - done.
Qed.

Lemma wf_write_array h l e b g ys :
  wf h → objects h !! l = Some (Builder e true b g) → Forall built ys →
  wf (mkHeap (<[e := ys]> (arrays h)) (objects h)).
Proof.
  intros [Hr Hf Hc Hs Hb] Hl Hys. split; cbn [arrays objects].
  - done.
  - intros o1 e1 b1 g1 H. destruct (Hf _ _ _ _ H) as [-> Ha]. split; [done|].
    rewrite lookup_insert_ne; [done|]. intros ->. eauto.
  - intros o1 e1 b1 g1 H.
    destruct (Hc _ _ _ _ H) as (r & g2 & -> & Hr' & Ha).
    exists r, g2. split; [done|]. split; [done|].
    rewrite lookup_insert. case_decide; eauto.
  - done.
  - intros a xs H. split_lookup H; eauto.
Qed.

Lemma wf_clear_array h e xs :
  wf h → arrays h !! e = Some xs →
  wf (mkHeap (<[e := []]> (arrays h)) (objects h)).
Proof.
  intros [Hr Hf Hc Hs Hb] He. split; cbn [arrays objects].
  - done.
  - intros o1 e1 b1 g1 H. destruct (Hf _ _ _ _ H) as [-> Ha]. split; [done|].
    rewrite lookup_insert. by case_decide.
  - intros o1 e1 b1 g1 H.
    destruct (Hc _ _ _ _ H) as (r & g2 & -> & Hr' & Ha).
    exists r, g2. split; [done|]. split; [done|].
    rewrite lookup_insert. case_decide; eauto.
  - done.
  - intros a ys H. split_lookup H; eauto.
Qed.

Lemma wf_new_chain h cur g :
  wf h → built cur →
  wf (mkHeap (<[fresh (dom (arrays h)) := [cur]]> (arrays h))
             (<[fresh (dom (objects h)) :=
                  Builder (fresh (dom (arrays h))) true
                          (Some (fresh (dom (objects h)))) g]> (objects h))).
Proof.
  intros [Hr Hf Hc Hs Hb] Hcur.
  pose proof (fresh_objects_None h) as Ho.
  pose proof (fresh_arrays_None h) as Ha.
  set (o := fresh (dom (objects h))) in *.
  set (a := fresh (dom (arrays h))) in *.
  split; cbn [arrays objects].
  - destruct Hr as (e0 & g0 & Hr). exists e0, g0.
    rewrite lookup_insert_ne; [done|]. intros Heq. congruence.
  - intros o1 e1 b1 g1 H. split_lookup H.
    destruct (Hf _ _ _ _ H) as [-> Ha1]. split; [done|].
    rewrite lookup_insert_ne; [done|]. intros Heq. congruence.
  - intros o1 e1 b1 g1 H. split_lookup H.
    + eexists _, _. rewrite !lookup_insert_eq. eauto.
    + destruct (Hc _ _ _ _ H) as (r & g2 & -> & Hr' & [xs Hxs]).
      exists r, g2. split; [done|].
      rewrite !lookup_insert_ne; [eauto| |]; intros Heq; congruence.
  - intros o1 o2 e1 b1 g1 b2 g2 H1 H2.
    split_lookup H1. split_lookup H2; [|eauto].
    destruct (Hf _ _ _ _ H1) as [_ Ha1]. congruence.
  - intros a1 xs H. split_lookup H; [|eauto]. by constructor.
Qed.

Lemma built_fragment k v : built (fragment k v).
Proof. by exists k, v. Qed.

Lemma call_facade h o e b g k v :
  wf h → objects h !! o = Some (Builder e false b g) →
  call k o v h =
    (Ok (fresh (dom (objects h))),
     mkHeap (<[fresh (dom (arrays h)) := [fragment k v]]> (arrays h))
            (<[fresh (dom (objects h)) :=
                 Builder (fresh (dom (arrays h))) true
                         (Some (fresh (dom (objects h)))) g]> (objects h))).
Proof.
  intros Hwf Ho. destruct (wf_facade _ Hwf _ _ _ _ Ho) as [-> _].
  unfold call. rewrite bind_unfold, (receiver_Builder _ _ _ _ _ _ Ho).
  cbn [default from_option id]. rewrite method_fragment.
  by rewrite (new_from_facade _ _ _ _ _ _ Ho).
Qed.

Lemma call_context h o e b g xs k v :
  wf h → objects h !! o = Some (Builder e true b g) →
  arrays h !! e = Some xs →
  ∃ r g', objects h !! r = Some (Builder e true (Some r) g') ∧
    call k o v h =
      match check xs (fragment k v) with
      | Some msg =>
          (Throw (JsError msg),
           mkHeap (arrays h)
                  (<[fresh (dom (objects h)) := Builder e true (Some r) g']>
                     (objects h)))
      | None =>
          (Ok (fresh (dom (objects h))),
           mkHeap (<[e := xs ++ [fragment k v]]> (arrays h))
                  (<[fresh (dom (objects h)) := Builder e true (Some r) g']>
                     (objects h)))
      end.
Proof.
  intros Hwf Ho Ha.
  destruct (wf_context _ Hwf _ _ _ _ Ho) as (r & g' & -> & Hr & _).
  exists r, g'. split; [done|].
  unfold call. rewrite bind_unfold, (receiver_Builder _ _ _ _ _ _ Ho).
  cbn [default from_option id]. rewrite method_fragment.
  by rewrite (new_from_context _ _ _ _ _ _ _ Hr Ha).
Qed.

Lemma call_stringify_builder h o e c b g xs :
  wf h → objects h !! o = Some (Builder e c b g) →
  arrays h !! e = Some xs →
  call_stringify o h =
    (Ok (render xs), mkHeap (<[e := []]> (arrays h)) (objects h)).
Proof.
  intros Hwf Ho Ha. unfold call_stringify.
  rewrite bind_unfold, (read_object_Some _ _ _ Ho).
  rewrite bind_unfold, (receiver_Builder _ _ _ _ _ _ Ho).
  destruct c.
  - destruct (wf_context _ Hwf _ _ _ _ Ho) as (r & g' & -> & Hr & _).
    cbn [default from_option id]. by rewrite (stringify_Builder _ _ _ _ _ _ _ Hr Ha).
  - destruct (wf_facade _ Hwf _ _ _ _ Ho) as [-> _].
    cbn [default from_option id]. by rewrite (stringify_Builder _ _ _ _ _ _ _ Ho Ha).
Qed.

Lemma call_stringify_combined h o d :
  objects h !! o = Some (Combined d) →
  call_stringify o h = (Ok (join "" d), h).
Proof.
  intros Ho. unfold call_stringify, Combined_stringify.
  by rewrite bind_unfold, (read_object_Some _ _ _ Ho), bind_unfold,
    (read_object_Some _ _ _ Ho).
Qed.

Lemma builder_array h o e c b g :
  wf h → objects h !! o = Some (Builder e c b g) → is_Some (arrays h !! e).
Proof.
  intros Hwf Ho. destruct c.
  - by destruct (wf_context _ Hwf _ _ _ _ Ho) as (r & g' & _ & _ & Ha).
  - destruct (wf_facade _ Hwf _ _ _ _ Ho) as [_ Ha]. eauto.
Qed.

Lemma wf_call k o v h : wf h → wf (snd (call k o v h)).
Proof.
  intros Hwf.
  destruct (objects h !! o) as [[e c b g|d]|] eqn:Ho.
  - destruct c.
    + destruct (builder_array _ _ _ _ _ _ Hwf Ho) as [xs Ha].
      destruct (call_context _ _ _ _ _ _ k v Hwf Ho Ha) as (r & g' & Hr & ->).
      destruct (check xs (fragment k v)); cbn [snd].
      * apply (wf_copy_object _ r); [done..|apply fresh_objects_None].
      * assert (wf (mkHeap (<[e := xs ++ [fragment k v]]> (arrays h))
                           (objects h))) as Hw.
        { apply (wf_write_array _ r _ (Some r) g'); [done..|].
          apply Forall_app. split; [by apply (wf_built _ Hwf e)|].
          constructor; [apply built_fragment|constructor]. }
        apply (wf_copy_object _ r (fresh (dom (objects h)))
                 e (Some r) g' Hw Hr (fresh_objects_None h)).
    + rewrite (call_facade _ _ _ _ _ _ _ Hwf Ho). cbn [snd].
      apply wf_new_chain; [done|apply built_fragment].
  - unfold call, receiver.
    by rewrite !bind_unfold, (read_object_Some _ _ _ Ho).
  - unfold call, receiver, read_object.
    by rewrite !bind_unfold, Ho.
Qed.

Lemma wf_call_stringify o h : wf h → wf (snd (call_stringify o h)).
Proof.
  intros Hwf.
  destruct (objects h !! o) as [[e c b g|d]|] eqn:Ho.
  - destruct (builder_array _ _ _ _ _ _ Hwf Ho) as [xs Ha].
    rewrite (call_stringify_builder _ _ _ _ _ _ _ Hwf Ho Ha). cbn [snd].
    by apply (wf_clear_array _ _ xs).
  - by rewrite (call_stringify_combined _ _ _ Ho).
  - unfold call_stringify, read_object. by rewrite bind_unfold, Ho.
Qed.

Lemma wf_combine_item item h : wf h → wf (snd (combine_item item h)).
Proof. destruct item; [done|apply wf_call_stringify]. Qed.

Lemma wf_mapM args h : wf h → wf (snd (mapM combine_item args h)).
Proof.
  revert h. induction args as [|item args IH]; intros h Hwf; [done|].
  cbn [mapM]. rewrite bind_unfold.
  pose proof (wf_combine_item item h Hwf) as H1.
  destruct (combine_item item h) as [[s|err] h1]; [|done].
  rewrite bind_unfold. specialize (IH h1 H1).
  by destruct (mapM combine_item args h1) as [[ss|err] h2].
Qed.

Lemma combine_unfold this args :
  combine this args =
    (set_args this args;;
     data ← mapM combine_item args;
     new_object (Combined data)).
Proof. reflexivity. Qed.

Lemma wf_combine this args h : wf h → wf (snd (combine this args h)).
Proof.
  intros Hwf. rewrite combine_unfold, bind_unfold.
  destruct (objects h !! this) as [[e c b g|d]|] eqn:Ho.
  - rewrite (set_args_Builder _ _ _ _ _ _ _ Ho).
    pose proof (wf_set_args _ _ _ _ _ _ (Some args) Hwf Ho) as H1.
    rewrite bind_unfold.
    pose proof (wf_mapM args _ H1) as H2.
    destruct (mapM combine_item args _) as [[ss|err] h2]; [|done].
    cbn [snd] in *. unfold new_object. cbn [snd].
    apply wf_new_combined; [done|apply fresh_objects_None].
  - unfold set_args. by rewrite bind_unfold, (read_object_Some _ _ _ Ho).
  - unfold set_args, read_object. by rewrite bind_unfold, Ho.
Qed.

Lemma wf_call_combine o args h : wf h → wf (snd (call_combine o args h)).
Proof.
  intros Hwf. unfold call_combine. rewrite bind_unfold.
  destruct (objects h !! o) as [[e c b g|d]|] eqn:Ho.
  - rewrite (receiver_Builder _ _ _ _ _ _ Ho). by apply wf_combine.
  - unfold receiver. by rewrite bind_unfold, (read_object_Some _ _ _ Ho).
  - unfold receiver, read_object. by rewrite bind_unfold, Ho.
Qed.

Lemma wf_exec op h : wf h → wf (exec op h).
Proof.
  destruct op; cbn [exec];
    [apply wf_call | apply wf_call_stringify | apply wf_call_combine].
Qed.

Lemma wf_run_ops ops h : wf h → wf (run_ops ops h).
Proof.
  revert h. induction ops as [|op ops IH]; intros h Hwf; [done|].
  apply IH, wf_exec, Hwf.
Qed.

Lemma reachable_wf h : reachable h → wf h.
Proof. intros [ops ->]. apply wf_run_ops, wf_initial. Qed.

Lemma reachable_exec op h : reachable h → reachable (exec op h).
Proof.
  intros [ops ->]. exists (ops ++ [op]). unfold run_ops.
  by rewrite foldl_app.
Qed.

(** ** The two checks *)

Lemma oneType_fragment k v : oneType (fragment k v) = one_of_a_kind k.
Proof. by destruct k. Qed.

Lemma hasInElems_Some xs cur el :
  el ∈ xs → unit_ el = unit_ cur → is_Some (hasInElems xs cur).
Proof.
  intros Hel Hu. unfold hasInElems.
  destruct (List.find _ xs) as [x|] eqn:Hf; [by eexists|].
  apply list_elem_of_In in Hel.
  pose proof (find_none _ _ Hf _ Hel) as Hn. cbv beta in Hn.
  rewrite Hu, String.eqb_refl, orb_true_r in Hn. done.
Qed.

Lemma hasInElems_None xs cur :
  (∀ el, el ∈ xs → unit_ el ≠ unit_ cur) → hasInElems xs cur = None.
Proof.
  intros H. unfold hasInElems.
  destruct (List.find _ xs) as [x|] eqn:Hf; [|done].
  apply find_some in Hf as [Hin Hp].
  apply list_elem_of_In, H in Hin.
  apply String.eqb_neq in Hin. rewrite Hin, andb_false_r in Hp. done.
Qed.

Lemma check_duplicate xs k v :
  one_of_a_kind k = true → has_kind k xs →
  check xs (fragment k v) = Some duplicate_message.
Proof.
  intros Hk [v' Hin]. unfold check.
  rewrite oneType_fragment, Hk, bool_decide_eq_true_2; [done|].
  apply (hasInElems_Some _ _ _ Hin). by destruct k.
Qed.

Lemma unit_fragment_eq k k' v v' :
  unit_ (fragment k v) = unit_ (fragment k' v') →
  k = k' ∨ (k = Element ∧ k' = Attr) ∨ (k = Attr ∧ k' = Element).
Proof. destruct k, k'; cbn; intros H; try discriminate H; auto. Qed.

(** ** Sorting by rank *)

Lemma sort_insert_Forall {A} (P : A → Prop) cmp x l :
  P x → Forall P l → Forall P (sort_insert cmp x l).
Proof.
  intros Hx Hl. induction Hl as [|y l Hy Hl IH]; cbn [sort_insert].
  - by constructor.
  - destruct (0 <? cmp x y)%Z; [by constructor|]. by repeat constructor.
Qed.

Lemma Array_sort_Forall {A} (P : A → Prop) cmp l :
  Forall P l → Forall P (Array_sort cmp l).
Proof.
  unfold Array_sort. induction 1; cbn [foldr]; [constructor|].
  by apply sort_insert_Forall.
Qed.

Lemma sort_insert_sorted x l :
  ranks_sorted l → ranks_sorted (sort_insert by_specific x l).
Proof.
  unfold ranks_sorted. induction l as [|y l IH]; cbn [sort_insert map]; intros Hs.
  - repeat constructor.
  - apply StronglySorted_inv in Hs as [Hs Hy].
    unfold by_specific at 1.
    destruct (Z.ltb_spec 0 (specific x - specific y)) as [Hlt|Hge].
    + cbn [map]. constructor; [by apply IH|].
      apply List.Forall_map, sort_insert_Forall; [lia|].
      exact (proj1 (List.Forall_map _ _ _) Hy).
    + cbn [map]. constructor; [by constructor|].
      constructor; [lia|].
      eapply Forall_impl; [exact Hy|]. cbn. intros; lia.
Qed.

Lemma Array_sort_sorted l : ranks_sorted (Array_sort by_specific l).
Proof.
  unfold Array_sort. induction l as [|x l IH]; cbn [foldr].
  - constructor.
  - by apply sort_insert_sorted.
Qed.

Lemma ranks_sorted_snoc xs c f :
  ranks_sorted (xs ++ [c]) → f ∈ xs → (specific f <= specific c)%Z.
Proof.
  unfold ranks_sorted. induction xs as [|x xs IH]; intros Hs Hin.
  - by apply not_elem_of_nil in Hin.
  - cbn [app map] in Hs. apply StronglySorted_inv in Hs as [Hs Hx].
    apply elem_of_cons in Hin as [->|Hin]; [|by apply IH].
    rewrite map_app in Hx. apply Forall_app in Hx as [_ Hx].
    by inversion Hx.
Qed.

Lemma filter_truthy l : List.filter truthy l = l.
Proof. induction l as [|x l IH]; [done|]. cbn. by rewrite IH. Qed.

(** ** Ranks as digits *)

Lemma built_rank f : built f → is_rank (specific f).
Proof. intros (k & v & ->). unfold is_rank. destruct k; cbn; lia. Qed.

Lemma Number_toString_rank z :
  is_rank z → ∃ c, Number_toString z = String c EmptyString ∧
                   z = (Z.of_nat (nat_of_ascii c) - 48)%Z.
Proof.
  unfold is_rank. intros Hz.
  assert (z = 0 ∨ z = 1 ∨ z = 2 ∨ z = 3 ∨ z = 4 ∨ z = 5)%Z as Hc by lia.
  destruct Hc as [->|[->|[->|[->|[->| ->]]]]]; eexists; split; reflexivity.
Qed.

Lemma join_cons_rank z l :
  is_rank z →
  ∃ c, join "" (map Number_toString (z :: l))
       = String c (join "" (map Number_toString l))
       ∧ z = (Z.of_nat (nat_of_ascii c) - 48)%Z.
Proof.
  intros Hz. destruct (Number_toString_rank z Hz) as (c & Hc & Hz').
  exists c. split; [|done]. cbn [map]. unfold join. rewrite Hc.
  destruct (map Number_toString l); reflexivity.
Qed.

Lemma join_ranks_inj l1 l2 :
  Forall is_rank l1 → Forall is_rank l2 →
  join "" (map Number_toString l1) = join "" (map Number_toString l2) →
  l1 = l2.
Proof.
  intros H1. revert l2. induction H1 as [|z1 l1 Hz1 H1 IH]; intros l2 H2 Heq.
  - destruct H2 as [|z2 l2 Hz2 H2]; [done|].
    destruct (join_cons_rank z2 l2 Hz2) as (c & Hc & _).
    rewrite Hc in Heq. discriminate Heq.
  - destruct (join_cons_rank z1 l1 Hz1) as (c1 & Hc1 & Hz1').
    rewrite Hc1 in Heq.
    destruct H2 as [|z2 l2 Hz2 H2]; [discriminate Heq|].
    destruct (join_cons_rank z2 l2 Hz2) as (c2 & Hc2 & Hz2').
    rewrite Hc2 in Heq. injection Heq as -> Heq.
    f_equal; [congruence|by apply IH].
Qed.

Lemma etalonOrder_eq items :
  etalonOrder items = map specific (Array_sort by_specific items).
Proof. unfold etalonOrder. by rewrite filter_truthy. Qed.

Lemma order_check_fails xs cur f :
  Forall built xs → built cur → f ∈ xs →
  (specific cur < specific f)%Z →
  String.eqb (join "" (map Number_toString (etalonOrder (xs ++ [cur]))))
             (join "" (map Number_toString (currentOrder (xs ++ [cur]))))
  = false.
Proof.
  intros Hxs Hcur Hin Hlt. apply String.eqb_neq. intros Heq.
  assert (Forall built (xs ++ [cur])) as Hitems.
  { apply Forall_app. split; [done|]. by constructor. }
  rewrite etalonOrder_eq in Heq. apply join_ranks_inj in Heq.
  - pose proof (Array_sort_sorted (xs ++ [cur])) as Hs.
    unfold ranks_sorted in Hs. rewrite Heq in Hs.
    pose proof (ranks_sorted_snoc _ _ _ Hs Hin). lia.
  - apply List.Forall_map, Array_sort_Forall.
    eapply Forall_impl; [exact Hitems|]. apply built_rank.
  - apply List.Forall_map. eapply Forall_impl; [exact Hitems|]. apply built_rank.
Qed.

(** ** The claims on the selector builder *)

(** *** Rendering and chains of calls *)

Lemma append_empty_r (s : string) : (s ++ "")%string = s.
Proof.
  induction s as [|c s IH]; [done|].
  change (String c (s ++ "")%string = String c s). by rewrite IH.
Qed.

Lemma append_assoc' (s1 s2 s3 : string) :
  ((s1 ++ s2) ++ s3 = s1 ++ s2 ++ s3)%string.
Proof.
  induction s1 as [|c s1 IH]; [done|].
  change (String c ((s1 ++ s2) ++ s3)%string = String c (s1 ++ s2 ++ s3)%string).
  by rewrite IH.
Qed.

Lemma join_empty_cons x l : join "" (x :: l) = (x ++ join "" l)%string.
Proof.
  destruct l as [|y l]; [|done].
  change (x = (x ++ "")%string). by rewrite append_empty_r.
Qed.

Lemma render_cons x l :
  render (x :: l) = (unit_ x ++ value x ++ render l)%string.
Proof.
  unfold render. cbn [map]. by rewrite join_empty_cons, append_assoc'.
Qed.

Lemma render_fragments calls : render (fragments calls) = selector_text calls.
Proof.
  induction calls as [|[k v] calls IH]; [done|].
  cbn [fragments map selector_text foldr]. rewrite render_cons.
  unfold fragments in IH. rewrite IH. by destruct k.
Qed.

Lemma chain_context calls : ∀ h o e b g xs o' h',
  wf h → objects h !! o = Some (Builder e true b g) →
  arrays h !! e = Some xs →
  chain calls o h = (Ok o', h') →
  wf h' ∧ (∃ b' g', objects h' !! o' = Some (Builder e true b' g'))
  ∧ arrays h' !! e = Some (xs ++ fragments calls).
Proof.
  induction calls as [|[k v] calls IH]; intros h o e b g xs o' h' Hwf Ho Ha Hc.
  - cbn in Hc. injection Hc as <- <-. rewrite app_nil_r. eauto.
  - cbn [chain] in Hc. rewrite bind_unfold in Hc.
    pose proof (wf_call k o v h Hwf) as Hwf1.
    destruct (call_context _ _ _ _ _ _ k v Hwf Ho Ha) as (r & g' & Hr & Hcall).
    rewrite Hcall in Hc, Hwf1. clear Hcall.
    destruct (check xs (fragment k v)); [done|]. cbn [snd] in Hwf1.
    eapply IH in Hc; [|done|cbn; apply lookup_insert_eq|cbn; apply lookup_insert_eq].
    destruct Hc as (? & ? & Hc). split; [done|]. split; [done|].
    rewrite Hc. cbn [fragments map]. by rewrite <- app_assoc.
Qed.

Lemma chain_facade calls h o' h' :
  wf h → chain calls cssSelectorBuilder h = (Ok o', h') →
  wf h' ∧ chain_of h' o' (fragments calls).
Proof.
  intros Hwf Hc. destruct (wf_root _ Hwf) as (e & g & Hr).
  destruct calls as [|[k v] calls].
  - cbn in Hc. injection Hc as <- <-. split; [done|].
    exists e, false, None, g. split; [done|].
    by destruct (wf_facade _ Hwf _ _ _ _ Hr).
  - cbn [chain] in Hc. rewrite bind_unfold in Hc.
    pose proof (wf_call k cssSelectorBuilder v h Hwf) as Hwf1.
    rewrite (call_facade _ _ _ _ _ k v Hwf Hr) in Hc, Hwf1.
    cbn [snd] in Hwf1.
    eapply chain_context in Hc; [|done|cbn; apply lookup_insert_eq|cbn; apply lookup_insert_eq].
    destruct Hc as (? & (b' & g' & Ho') & Hc). split; [done|].
    by eexists _, _, _, _.
Qed.

(** C1.  For every chain of fragment-adding calls started on the facade
    that goes through, [stringify()] on the handle it ends with returns the
    glyph and the value of every fragment, in the order of the calls and with
    nothing in between: no glyph for an element, [#] for an id, [.] for a
    class, the expression in brackets for an attribute, [:] for a
    pseudo-class and [::] for a pseudo-element. *)
Theorem C1_stringify_concatenates h calls o h' :
  reachable h →
  chain calls cssSelectorBuilder h = (Ok o, h') →
  ∃ h'', call_stringify o h' = (Ok (selector_text calls), h'').
Proof.
  intros Hr Hc. apply reachable_wf in Hr.
  destruct (chain_facade _ _ _ _ Hr Hc) as [Hwf (e & c & b & g & Ho & Ha)].
  rewrite (call_stringify_builder _ _ _ _ _ _ _ Hwf Ho Ha), render_fragments.
  eauto.
Qed.

(** The two chains of the claim: [element('a').id('x').class('y')] gives
    [a#x.y], and [element('a').attr('href$=".png"').pseudoClass('focus')]
    gives [a[href$=".png"]:focus]. *)
Lemma C1_witness :
  reachable initial_heap
  ∧ (∃ o h', chain [(Element, "a"); (Id, "x"); (Class_, "y")]
               cssSelectorBuilder initial_heap = (Ok o, h')
             ∧ ∃ h'', call_stringify o h' = (Ok "a#x.y", h''))
  ∧ (∃ o h', chain [(Element, "a"); (Attr, href_png); (PseudoClass, "focus")]
               cssSelectorBuilder initial_heap = (Ok o, h')
             ∧ ∃ h'', call_stringify o h' = (Ok a_href_png_focus, h'')).
Proof.
  assert (reachable initial_heap) as Hr by (by exists []).
  split; [exact Hr|]. split.
  - eexists _, _. split; [vm_compute; reflexivity|].
    apply (C1_stringify_concatenates initial_heap
             [(Element, "a"); (Id, "x"); (Class_, "y")] _ _ Hr).
    vm_compute; reflexivity.
  - eexists _, _. split; [vm_compute; reflexivity|].
    apply (C1_stringify_concatenates initial_heap
             [(Element, "a"); (Attr, href_png); (PseudoClass, "focus")] _ _ Hr).
    vm_compute; reflexivity.
Defined.

(** *** Rejected appends *)

Lemma chain_of_nonempty_created h o xs :
  wf h → chain_of h o xs → xs ≠ [] →
  ∃ e b g, objects h !! o = Some (Builder e true b g)
           ∧ arrays h !! e = Some xs.
Proof.
  intros Hwf (e & c & b & g & Ho & Ha) Hne. destruct c; [eauto|].
  destruct (wf_facade _ Hwf _ _ _ _ Ho) as [_ Ha']. congruence.
Qed.

Lemma call_chain h o xs k v :
  wf h → chain_of h o xs → xs ≠ [] →
  ∃ e r g',
    objects h !! r = Some (Builder e true (Some r) g')
    ∧ arrays h !! e = Some xs
    ∧ (∃ b g, objects h !! o = Some (Builder e true b g))
    ∧ call k o v h =
        match check xs (fragment k v) with
        | Some msg =>
            (Throw (JsError msg),
             mkHeap (arrays h)
                    (<[fresh (dom (objects h)) := Builder e true (Some r) g']>
                       (objects h)))
        | None =>
            (Ok (fresh (dom (objects h))),
             mkHeap (<[e := xs ++ [fragment k v]]> (arrays h))
                    (<[fresh (dom (objects h)) := Builder e true (Some r) g']>
                       (objects h)))
        end.
Proof.
  intros Hwf Hch Hne.
  destruct (chain_of_nonempty_created _ _ _ Hwf Hch Hne) as (e & b & g & Ho & Ha).
  destruct (call_context _ _ _ _ _ _ k v Hwf Ho Ha) as (r & g' & Hr & Hcall).
  exists e, r, g'. eauto 10.
Qed.

Lemma elem_of_nonempty {A} (x : A) xs : x ∈ xs → xs ≠ [].
Proof. intros H ->. by apply not_elem_of_nil in H. Qed.

(** C3.  Appending an element, an id or a pseudo-element to a chain that
    already holds a fragment of that same kind throws the error whose message
    says that element, id and pseudo-element should not occur more than one
    time inside the selector. *)
Theorem C3_duplicate_rejected h o xs k v :
  reachable h → chain_of h o xs →
  one_of_a_kind k = true → has_kind k xs →
  ∃ h', call k o v h = (Throw (JsError duplicate_message), h').
Proof.
  intros Hr Hch Hk Hin. apply reachable_wf in Hr.
  assert (xs ≠ []) as Hne by (destruct Hin as [v' Hin]; by eapply elem_of_nonempty).
  destruct (call_chain _ _ _ k v Hr Hch Hne) as (e & r & g' & _ & _ & _ & ->).
  rewrite (check_duplicate _ _ _ Hk Hin). eauto.
Qed.

(** [id('a').id('b')] is rejected. *)
Lemma C3_witness :
  reachable heap_id ∧ chain_of heap_id 1 [fragment Id "a"]
  ∧ one_of_a_kind Id = true ∧ has_kind Id [fragment Id "a"]
  ∧ ∃ h', call Id 1 "b" heap_id = (Throw (JsError duplicate_message), h').
Proof.
  assert (reachable heap_id) as Hr by (by eexists).
  assert (chain_of heap_id 1 [fragment Id "a"]) as Hch.
  { eexists _, _, _, _. split; vm_compute; reflexivity. }
  assert (has_kind Id [fragment Id "a"]) as Hk.
  { exists "a". apply list_elem_of_here. }
  split; [exact Hr|]. split; [exact Hch|]. split; [reflexivity|].
  split; [exact Hk|].
  exact (C3_duplicate_rejected heap_id 1 _ Id "b" Hr Hch eq_refl Hk).
Defined.

Lemma hasInElems_is_Some xs cur :
  is_Some (hasInElems xs cur) → ∃ el, el ∈ xs ∧ unit_ el = unit_ cur.
Proof.
  intros [el Hf]. unfold hasInElems in Hf.
  apply find_some in Hf as [Hin Hp]. exists el.
  split; [by apply list_elem_of_In|].
  apply orb_true_iff in Hp as [Hp|Hp].
  - apply andb_true_iff in Hp as [_ Hp]. by apply String.eqb_eq.
  - by apply String.eqb_eq.
Qed.

Lemma check_messages xs cur msg :
  check xs cur = Some msg → msg = duplicate_message ∨ msg = order_message.
Proof.
  unfold check. destruct (oneType cur && _); [intros [= <-]; by left|].
  destruct (String.eqb _ _); [done|]. intros [= <-]. by right.
Qed.

Lemma check_lower_rank xs k v f :
  Forall built xs → f ∈ xs →
  (specific (fragment k v) < specific f)%Z →
  ∃ msg, check xs (fragment k v) = Some msg
    ∧ (msg = duplicate_message ∨ msg = order_message)
    ∧ (one_of_a_kind k = true → has_kind k xs → msg = duplicate_message)
    ∧ (¬ (one_of_a_kind k = true ∧ has_kind k xs) →
       ¬ (k = Element ∧ has_kind Attr xs) → msg = order_message).
Proof.
  intros Hxs Hin Hlt.
  destruct (check xs (fragment k v)) as [msg|] eqn:Hck.
  - exists msg. split; [done|]. split; [by eapply check_messages|]. split.
    + intros Hk Hh. rewrite (check_duplicate _ _ _ Hk Hh) in Hck. congruence.
    + intros Hnd Hna. unfold check in Hck.
      rewrite oneType_fragment in Hck.
      destruct (one_of_a_kind k) eqn:Hk; cbn [andb] in Hck.
      * case_bool_decide as Hs.
        -- exfalso. apply hasInElems_is_Some in Hs as (el & Hel & Hu).
           pose proof (proj1 (Forall_forall _ _) Hxs el Hel) as (k' & v' & ->).
           apply unit_fragment_eq in Hu as [->|[[-> ->]|[-> ->]]].
           ++ apply Hnd. split; [done|]. by exists v'.
           ++ discriminate Hk.
           ++ apply Hna. split; [done|]. by exists v'.
        -- rewrite (order_check_fails _ _ f Hxs (built_fragment k v) Hin Hlt) in Hck.
           congruence.
      * rewrite (order_check_fails _ _ f Hxs (built_fragment k v) Hin Hlt) in Hck.
        congruence.
  - exfalso. unfold check in Hck.
    destruct (oneType (fragment k v) && _); [done|].
    by rewrite (order_check_fails _ _ f Hxs (built_fragment k v) Hin Hlt) in Hck.
Qed.

(** C2, as stated, fails.  In [id('a').class('c').id('b')] the second id
    has a lower rank than the class before it, and the error is the one about
    duplicates: [checkOneOfType] runs before [checkOrder].  The claim's own
    example fails too: an element appended to a chain that holds an attribute
    has the lower rank, and the error thrown is again the one about
    duplicates, because the callback of [find] in [checkOneOfType] ends in
    [|| el.unit === current.unit] and an element and an attribute both have
    the empty [unit]. *)
Lemma C2_counterexample :
  (chain_of heap_id_class 2 [fragment Id "a"; fragment Class_ "c"]
   ∧ fragment Class_ "c" ∈ [fragment Id "a"; fragment Class_ "c"]
   ∧ (specific (fragment Id "b") < specific (fragment Class_ "c"))%Z
   ∧ fst (call Id 2 "b" heap_id_class) = Throw (JsError duplicate_message)
   ∧ fst (call Id 2 "b" heap_id_class) ≠ Throw (JsError order_message))
  ∧ (chain_of heap_attr 1 [fragment Attr "x"]
     ∧ fragment Attr "x" ∈ [fragment Attr "x"]
     ∧ (specific (fragment Element "e") < specific (fragment Attr "x"))%Z
     ∧ fst (call Element 1 "e" heap_attr) = Throw (JsError duplicate_message)
     ∧ fst (call Element 1 "e" heap_attr) ≠ Throw (JsError order_message)).
Proof.
  split.
  - split; [|split; [|split; [|split]]].
    + eexists _, _, _, _. split; vm_compute; reflexivity.
    + apply list_elem_of_further, list_elem_of_here.
    + reflexivity.
    + vm_compute; reflexivity.
    + vm_compute. discriminate.
  - split; [|split; [|split; [|split]]].
    + eexists _, _, _, _. split; vm_compute; reflexivity.
    + apply list_elem_of_here.
    + reflexivity.
    + vm_compute; reflexivity.
    + vm_compute. discriminate.
Qed.

(** C2, amended.  Appending a fragment whose rank is strictly lower than the
    rank of some fragment already in the chain always throws, and appends
    nothing: every array holds afterwards what it held before, every object
    that existed is as it was, and the handle is a chain on the same
    fragments as before.  The check for duplicates runs first: where the new
    fragment is an element, id or pseudo-element and the chain holds one of
    the same kind, the error is the one about duplicates.  Otherwise it is
    the one about the order, the case of an element appended to a chain
    holding an attribute left aside. *)
Theorem C2_lower_rank_rejected h o xs k v f :
  reachable h → chain_of h o xs → f ∈ xs →
  (specific (fragment k v) < specific f)%Z →
  ∃ msg h', call k o v h = (Throw (JsError msg), h')
    ∧ arrays h' = arrays h
    ∧ (∀ l obj, objects h !! l = Some obj → objects h' !! l = Some obj)
    ∧ chain_of h' o xs
    ∧ (msg = duplicate_message ∨ msg = order_message)
    ∧ (one_of_a_kind k = true → has_kind k xs → msg = duplicate_message)
    ∧ (¬ (one_of_a_kind k = true ∧ has_kind k xs) →
       ¬ (k = Element ∧ has_kind Attr xs) → msg = order_message).
Proof.
  intros Hr Hch Hin Hlt. apply reachable_wf in Hr.
  pose proof (elem_of_nonempty _ _ Hin) as Hne.
  destruct (call_chain _ _ _ k v Hr Hch Hne)
    as (e & r & g' & _ & Ha & (b & g & Ho) & ->).
  destruct (check_lower_rank xs k v f (wf_built _ Hr _ _ Ha) Hin Hlt)
    as (msg & -> & H0 & H1 & H2).
  assert (∀ l obj, objects h !! l = Some obj →
            <[fresh (dom (objects h)) := Builder e true (Some r) g']>
              (objects h) !! l = Some obj) as Hkeep.
  { intros l obj Hl.
    rewrite lookup_insert_ne; [exact Hl|].
    intros Heq. exact (fresh_objects_ne _ _ _ Hl (eq_sym Heq)). }
  eexists msg, _. split; [reflexivity|]. split; [reflexivity|].
  split; [exact Hkeep|]. split; [|by auto].
  exists e, true, b, g. split; [exact (Hkeep _ _ Ho)|exact Ha].
Qed.

(** [class('c').id('x')] is rejected for its order, and the chain still
    holds the class alone. *)
Lemma C2_witness :
  reachable heap_class
  ∧ chain_of heap_class 1 [fragment Class_ "c"]
  ∧ fragment Class_ "c" ∈ [fragment Class_ "c"]
  ∧ (specific (fragment Id "x") < specific (fragment Class_ "c"))%Z
  ∧ ∃ h', call Id 1 "x" heap_class = (Throw (JsError order_message), h')
          ∧ arrays h' = arrays heap_class
          ∧ chain_of h' 1 [fragment Class_ "c"].
Proof.
  assert (reachable heap_class) as Hr by (by eexists).
  assert (chain_of heap_class 1 [fragment Class_ "c"]) as Hch.
  { eexists _, _, _, _. split; vm_compute; reflexivity. }
  assert (fragment Class_ "c" ∈ [fragment Class_ "c"]) as Hin
    by apply list_elem_of_here.
  assert (specific (fragment Id "x") < specific (fragment Class_ "c"))%Z
    as Hlt by reflexivity.
  split; [exact Hr|]. split; [exact Hch|]. split; [exact Hin|].
  split; [exact Hlt|].
  destruct (C2_lower_rank_rejected heap_class 1 _ Id "x" _ Hr Hch Hin Hlt)
    as (msg & h' & Hcall & Harr & _ & Hch' & _ & _ & Hmsg).
  exists h'. split; [|split; [exact Harr|exact Hch']].
  rewrite Hcall, Hmsg; [reflexivity| |].
  - intros [_ [v' Hv]]. apply list_elem_of_singleton in Hv. discriminate Hv.
  - intros [Hk _]. discriminate Hk.
Defined.

(** *** Rendering empties the array *)

(** C5.  [stringify()] on a chain handle returns the text of its fragments
    and leaves the array empty: a second [stringify()] on the same handle,
    with nothing appended in between, returns the empty string. *)
Theorem C5_second_stringify_empty h o e c b g :
  reachable h → objects h !! o = Some (Builder e c b g) →
  ∃ xs h', chain_of h o xs
    ∧ call_stringify o h = (Ok (render xs), h')
    ∧ chain_of h' o []
    ∧ call_stringify o h' = (Ok "", h').
Proof.
  intros Hr Ho. apply reachable_wf in Hr.
  destruct (builder_array _ _ _ _ _ _ Hr Ho) as [xs Ha].
  pose proof (wf_call_stringify o h Hr) as Hwf'.
  rewrite (call_stringify_builder _ _ _ _ _ _ _ Hr Ho Ha) in Hwf'.
  cbn [snd] in Hwf'.
  exists xs, (mkHeap (<[e := []]> (arrays h)) (objects h)).
  split; [by exists e, c, b, g|].
  split; [by apply (call_stringify_builder _ _ _ _ _ _ _ Hr Ho Ha)|].
  assert (arrays (mkHeap (<[e := []]> (arrays h)) (objects h)) !! e = Some [])
    as Ha' by apply lookup_insert_eq.
  split; [by exists e, c, b, g|].
  rewrite (call_stringify_builder _ _ _ _ _ _ _ Hwf' Ho Ha').
  cbn [arrays objects]. by rewrite insert_insert_eq.
Qed.

(** [element('a').id('x')]: first [a#x], then the empty string. *)
Lemma C5_witness :
  reachable heap_element_id
  ∧ objects heap_element_id !! 2 = Some (Builder 1 true (Some 1) None)
  ∧ ∃ h', call_stringify 2 heap_element_id = (Ok "a#x", h')
          ∧ call_stringify 2 h' = (Ok "", h').
Proof.
  assert (reachable heap_element_id) as Hr by (by eexists).
  assert (objects heap_element_id !! 2 = Some (Builder 1 true (Some 1) None))
    as Ho by (vm_compute; reflexivity).
  split; [exact Hr|]. split; [exact Ho|].
  destruct (C5_second_stringify_empty _ _ _ _ _ _ Hr Ho)
    as (xs & h' & Hch & H1 & _ & H2).
  exists h'. split; [|done]. rewrite H1.
  destruct Hch as (e' & c' & b' & g' & Ho' & Ha').
  pose proof (eq_trans (eq_sym Ho') Ho) as Heq.
  injection Heq as -> -> -> ->.
  assert (arrays heap_element_id !! 1
          = Some [fragment Element "a"; fragment Id "x"]) as Ha
    by (vm_compute; reflexivity).
  pose proof (eq_trans (eq_sym Ha') Ha) as Heq.
  by injection Heq as ->.
Defined.

(** *** What a failed append leaves behind *)

Lemma call_TypeError_Combined h k o v d :
  objects h !! o = Some (Combined d) → call k o v h = (Throw TypeError, h).
Proof.
  intros Ho. unfold call, receiver.
  by rewrite !bind_unfold, (read_object_Some _ _ _ Ho).
Qed.

Lemma call_TypeError_None h k o v :
  objects h !! o = None → call k o v h = (Throw TypeError, h).
Proof.
  intros Ho. unfold call, receiver, read_object. by rewrite !bind_unfold, Ho.
Qed.

(** C7.  When an append throws one of the two errors, no array has changed
    and every object is as it was: the chain holds the fragments it held,
    [stringify()] on it returns what it would have returned before, and every
    fragment that passes the two checks can still be appended. *)
Theorem C7_failed_append_changes_nothing h k o v msg h' :
  reachable h → call k o v h = (Throw (JsError msg), h') →
  arrays h' = arrays h
  ∧ (∀ l obj, objects h !! l = Some obj → objects h' !! l = Some obj)
  ∧ (∀ xs, chain_of h o xs → chain_of h' o xs)
  ∧ fst (call_stringify o h') = fst (call_stringify o h)
  ∧ (∀ k2 v2 xs, chain_of h o xs → check xs (fragment k2 v2) = None →
       ∃ o2 h2, call k2 o v2 h' = (Ok o2, h2)
                ∧ chain_of h2 o2 (xs ++ [fragment k2 v2])).
Proof.
  intros Hr Hcall. apply reachable_wf in Hr.
  pose proof (wf_call k o v h Hr) as Hwf'. rewrite Hcall in Hwf'.
  cbn [snd] in Hwf'.
  destruct (objects h !! o) as [[e c b g|d]|] eqn:Ho;
    [|by rewrite (call_TypeError_Combined _ _ _ _ _ Ho) in Hcall
     |by rewrite (call_TypeError_None _ _ _ _ Ho) in Hcall].
  destruct c; [|by rewrite (call_facade _ _ _ _ _ _ _ Hr Ho) in Hcall].
  destruct (builder_array _ _ _ _ _ _ Hr Ho) as [xs Ha].
  destruct (call_context _ _ _ _ _ _ k v Hr Ho Ha) as (r & g' & Hrr & Hc).
  rewrite Hc in Hcall. destruct (check xs (fragment k v)); [|done].
  injection Hcall as _ <-. cbn [arrays objects] in *.
  assert (∀ l obj, objects h !! l = Some obj →
            <[fresh (dom (objects h)) := Builder e true (Some r) g']>
              (objects h) !! l = Some obj) as Hframe.
  { intros l obj Hl. rewrite lookup_insert_ne; [done|].
    intros <-. by rewrite fresh_objects_None in Hl. }
  assert (∀ ys, chain_of h o ys →
            chain_of (mkHeap (arrays h)
                        (<[fresh (dom (objects h)) :=
                             Builder e true (Some r) g']> (objects h))) o ys)
    as Hchain.
  { intros ys (e1 & c1 & b1 & g1 & Ho1 & Ha1). exists e1, c1, b1, g1.
    split; [by apply Hframe|done]. }
  split; [done|]. split; [done|]. split; [done|]. split.
  - rewrite (call_stringify_builder _ _ _ _ _ _ _ Hr Ho Ha).
    by rewrite (call_stringify_builder _ _ _ _ _ _ xs Hwf' (Hframe _ _ Ho)).
  - intros k2 v2 ys (e1 & c1 & b1 & g1 & Ho1 & Ha1) Hck.
    rewrite Ho in Ho1. injection Ho1 as <- <- <- <-.
    destruct (call_context _ _ _ _ _ _ k2 v2 Hwf' (Hframe _ _ Ho) Ha1)
      as (r2 & g2 & _ & ->).
    rewrite Hck. eexists _, _. split; [done|].
    eexists _, _, _, _. cbn [arrays objects].
    split; apply lookup_insert_eq.
Qed.

(** After the rejected [id('a').id('b')] the chain still renders [#a] and
    takes [class('c')]. *)
Lemma C7_witness :
  reachable heap_id
  ∧ call Id 1 "b" heap_id = (Throw (JsError duplicate_message), heap_id_failed)
  ∧ arrays heap_id_failed = arrays heap_id
  ∧ fst (call_stringify 1 heap_id_failed) = Ok "#a"
  ∧ ∃ o2 h2, call Class_ 1 "c" heap_id_failed = (Ok o2, h2)
             ∧ chain_of h2 o2 [fragment Id "a"; fragment Class_ "c"].
Proof.
  assert (reachable heap_id) as Hr by (by eexists).
  assert (call Id 1 "b" heap_id
          = (Throw (JsError duplicate_message), heap_id_failed)) as Hc
    by (vm_compute; reflexivity).
  destruct (C7_failed_append_changes_nothing _ _ _ _ _ _ Hr Hc)
    as (H1 & _ & _ & H4 & H5).
  split; [exact Hr|]. split; [exact Hc|]. split; [exact H1|]. split.
  - rewrite H4. vm_compute; reflexivity.
  - apply (H5 Class_ "c" [fragment Id "a"]); [|vm_compute; reflexivity].
    eexists _, _, _, _. split; vm_compute; reflexivity.
Defined.

(** *** Shared and separate arrays *)

(** C10.  Extending a chain that holds at least one fragment pushes onto the
    array of that chain, and the handle returned refers to the same array:
    the old handle sees the new fragment, [stringify()] on the old handle
    returns the extended text and empties the array for both. *)
Theorem C10_extension_shares_array h a xs k v b h' :
  reachable h → chain_of h a xs → xs ≠ [] →
  call k a v h = (Ok b, h') →
  (∃ e, elems_of h' a = Some e ∧ elems_of h' b = Some e)
  ∧ chain_of h' a (xs ++ [fragment k v])
  ∧ chain_of h' b (xs ++ [fragment k v])
  ∧ ∃ h'', call_stringify a h' = (Ok (render (xs ++ [fragment k v])), h'')
           ∧ call_stringify b h'' = (Ok "", h'').
Proof.
  intros Hr Hch Hne Hcall. apply reachable_wf in Hr.
  pose proof (wf_call k a v h Hr) as Hwf'. rewrite Hcall in Hwf'.
  cbn [snd] in Hwf'.
  destruct (call_chain _ _ _ k v Hr Hch Hne)
    as (e & r & g' & Hrr & Ha & (b0 & g0 & Ho) & Hc).
  rewrite Hc in Hcall. destruct (check xs (fragment k v)); [done|].
  injection Hcall as <- <-.
  pose proof (fresh_objects_ne _ _ _ Ho) as Hfr.
  set (o := fresh (dom (objects h))) in *.
  set (h' := mkHeap _ _) in *.
  assert (objects h' !! a = Some (Builder e true b0 g0)) as Ho'.
  { unfold h'. cbn [objects]. by rewrite lookup_insert_ne. }
  assert (objects h' !! o = Some (Builder e true (Some r) g')) as Hb'
    by apply lookup_insert_eq.
  assert (arrays h' !! e = Some (xs ++ [fragment k v])) as Ha'
    by apply lookup_insert_eq.
  split. { exists e. unfold elems_of. by rewrite Ho', Hb'. }
  split. { by exists e, true, b0, g0. }
  split. { by eexists e, true, _, _. }
  eexists. split; [by apply (call_stringify_builder _ _ _ _ _ _ _ Hwf' Ho' Ha')|].
  pose proof (wf_call_stringify a h' Hwf') as Hwf''.
  rewrite (call_stringify_builder _ _ _ _ _ _ _ Hwf' Ho' Ha') in Hwf''.
  cbn [snd] in Hwf''.
  erewrite (call_stringify_builder _ _ _ _ _ _ [] Hwf'');
    [|exact Hb'|apply lookup_insert_eq].
  cbn [arrays objects]. by rewrite insert_insert_eq.
Qed.

(** [a = element('e')], [b = a.id('x')]: [a.stringify()] is [e#x], then
    [b.stringify()] is empty. *)
Lemma C10_witness :
  reachable heap_element
  ∧ chain_of heap_element 1 [fragment Element "e"]
  ∧ [fragment Element "e"] ≠ []
  ∧ call Id 1 "x" heap_element = (Ok 2, heap_element_extended)
  ∧ (∃ e, elems_of heap_element_extended 1 = Some e
          ∧ elems_of heap_element_extended 2 = Some e)
  ∧ ∃ h'', call_stringify 1 heap_element_extended = (Ok "e#x", h'')
           ∧ call_stringify 2 h'' = (Ok "", h'').
Proof.
  assert (reachable heap_element) as Hr by (by eexists).
  assert (chain_of heap_element 1 [fragment Element "e"]) as Hch.
  { eexists _, _, _, _. split; vm_compute; reflexivity. }
  assert ([fragment Element "e"] ≠ []) as Hne by done.
  assert (call Id 1 "x" heap_element = (Ok 2, heap_element_extended)) as Hc
    by (vm_compute; reflexivity).
  destruct (C10_extension_shares_array _ _ _ _ _ _ _ Hr Hch Hne Hc)
    as (H1 & _ & _ & H4).
  split; [exact Hr|]. split; [exact Hch|]. split; [exact Hne|].
  split; [exact Hc|]. split; [exact H1|]. exact H4.
Defined.

(** C6.  Whatever calls were made before, the array of the facade is empty;
    and two chains started on the facade get two different arrays, each
    holding its own fragment only, so that each [stringify()] returns the text
    of its own fragment. *)
Theorem C6_facade_chains_independent ops k1 v1 k2 v2 :
  chain_of (run_ops ops initial_heap) cssSelectorBuilder []
  ∧ ∃ a h1 b h2 h3 h4,
      call k1 cssSelectorBuilder v1 (run_ops ops initial_heap) = (Ok a, h1)
      ∧ call k2 cssSelectorBuilder v2 h1 = (Ok b, h2)
      ∧ chain_of h2 cssSelectorBuilder []
      ∧ chain_of h2 a [fragment k1 v1]
      ∧ chain_of h2 b [fragment k2 v2]
      ∧ elems_of h2 a ≠ elems_of h2 b
      ∧ call_stringify a h2 = (Ok (render [fragment k1 v1]), h3)
      ∧ call_stringify b h3 = (Ok (render [fragment k2 v2]), h4).
Proof.
  set (h := run_ops ops initial_heap).
  assert (wf h) as Hwf by apply wf_run_ops, wf_initial.
  assert (∀ h0, wf h0 → chain_of h0 cssSelectorBuilder []) as Hroot.
  { intros h0 Hwf0. destruct (wf_root _ Hwf0) as (e & g & Hr).
    exists e, false, None, g. split; [done|].
    by destruct (wf_facade _ Hwf0 _ _ _ _ Hr). }
  split; [by apply Hroot|].
  destruct (wf_root _ Hwf) as (e & g & Hr).
  pose proof (wf_call k1 cssSelectorBuilder v1 h Hwf) as Hwf1.
  rewrite (call_facade _ _ _ _ _ k1 v1 Hwf Hr) in Hwf1. cbn [snd] in Hwf1.
  pose proof (fresh_objects_ne _ _ _ Hr) as Hfr.
  pose proof (fresh_arrays_None h) as Hfa.
  set (a := fresh (dom (objects h))) in *.
  set (ea := fresh (dom (arrays h))) in *.
  set (h1 := mkHeap _ _) in Hwf1.
  assert (objects h1 !! cssSelectorBuilder = Some (Builder e false None g))
    as Hr1 by (unfold h1; cbn [objects]; by rewrite lookup_insert_ne).
  pose proof (wf_call k2 cssSelectorBuilder v2 h1 Hwf1) as Hwf2.
  rewrite (call_facade _ _ _ _ _ k2 v2 Hwf1 Hr1) in Hwf2. cbn [snd] in Hwf2.
  assert (objects h1 !! a = Some (Builder ea true (Some a) g)) as Ha1
    by apply lookup_insert_eq.
  assert (arrays h1 !! ea = Some [fragment k1 v1]) as Hea1
    by apply lookup_insert_eq.
  pose proof (fresh_objects_ne _ _ _ Ha1) as Hfr1.
  pose proof (fresh_arrays_ne _ _ _ Hea1) as Hfa1.
  set (b := fresh (dom (objects h1))) in *.
  set (eb := fresh (dom (arrays h1))) in *.
  set (h2 := mkHeap _ _) in Hwf2.
  assert (objects h2 !! a = Some (Builder ea true (Some a) g)) as Ha2
    by (unfold h2; cbn [objects]; by rewrite lookup_insert_ne).
  assert (objects h2 !! b = Some (Builder eb true (Some b) g)) as Hb2
    by apply lookup_insert_eq.
  assert (arrays h2 !! ea = Some [fragment k1 v1]) as Hea2
    by (unfold h2; cbn [arrays]; by rewrite lookup_insert_ne).
  assert (arrays h2 !! eb = Some [fragment k2 v2]) as Heb2
    by apply lookup_insert_eq.
  pose proof (wf_call_stringify a h2 Hwf2) as Hwf3.
  rewrite (call_stringify_builder _ _ _ _ _ _ _ Hwf2 Ha2 Hea2) in Hwf3.
  cbn [snd] in Hwf3.
  exists a, h1, b, h2. eexists _, _.
  split; [by apply (call_facade _ _ _ _ _ k1 v1 Hwf Hr)|].
  split; [by apply (call_facade _ _ _ _ _ k2 v2 Hwf1 Hr1)|].
  split; [by apply Hroot|].
  split; [by eexists _, _, _, _|].
  split; [by eexists _, _, _, _|].
  split. { unfold elems_of. rewrite Ha2, Hb2. congruence. }
  split; [by apply (call_stringify_builder _ _ _ _ _ _ _ Hwf2 Ha2 Hea2)|].
  apply (call_stringify_builder _ _ eb true (Some b) g _ Hwf3); [exact Hb2|].
  cbn [arrays]. by rewrite lookup_insert_ne.
Qed.

(** [facade.id('a')] and [facade.class('b')]: [#a] and [.b]. *)
Lemma C6_example :
  ∃ a h1 b h2 h3 h4,
    call Id cssSelectorBuilder "a" initial_heap = (Ok a, h1)
    ∧ call Class_ cssSelectorBuilder "b" h1 = (Ok b, h2)
    ∧ chain_of h2 cssSelectorBuilder []
    ∧ call_stringify a h2 = (Ok "#a", h3)
    ∧ call_stringify b h3 = (Ok ".b", h4).
Proof.
  destruct (C6_facade_chains_independent [] Id "a" Class_ "b")
    as (_ & a & h1 & b & h2 & h3 & h4 & H1 & H2 & H3 & _ & _ & _ & H7 & H8).
  by exists a, h1, b, h2, h3, h4.
Defined.

(** *** combine *)

Lemma pieces_same_targets objs objs' args :
  same_targets objs objs' → ∀ arrs, pieces objs arrs args = pieces objs' arrs args.
Proof.
  intros Hs. induction args as [|[t|l] args IH]; intros arrs; cbn [pieces].
  - done.
  - by rewrite IH.
  - specialize (Hs l).
    destruct (objs !! l) as [[e c b g|d]|], (objs' !! l) as [[e' c' b' g'|d']|];
      try done; subst; by rewrite IH.
Qed.

Lemma same_targets_set_args objs r e c b g g' :
  objs !! r = Some (Builder e c b g) →
  same_targets objs (<[r := Builder e c b g']> objs).
Proof.
  intros Hr l. destruct (decide (r = l)) as [<-|Hne].
  - by rewrite Hr, lookup_insert_eq.
  - rewrite lookup_insert_ne by done. by destruct (objs !! l) as [[]|].
Qed.

Lemma join_concat_text l : join "" l = concat_text l.
Proof.
  induction l as [|x l IH]; [done|].
  rewrite join_empty_cons, IH. done.
Qed.

Lemma mapM_pieces args : ∀ h,
  wf h → (∀ l, VRef l ∈ args → is_Some (objects h !! l)) →
  ∃ h', mapM combine_item args h
        = (Ok (pieces (objects h) (arrays h) args), h')
        ∧ objects h' = objects h ∧ wf h'.
Proof.
  induction args as [|[t|l] args IH]; intros h Hwf Hargs.
  - by exists h.
  - destruct (IH h Hwf) as (h' & Hm & Ho & Hwf').
    { intros l Hl. apply Hargs. by right. }
    exists h'. split; [|done]. cbn [mapM pieces].
    rewrite bind_unfold. cbn [combine_item]. rewrite ret_unfold.
    by rewrite bind_unfold, Hm.
  - destruct (Hargs l) as [obj Hl]; [by left|].
    cbn [mapM pieces]. rewrite bind_unfold. cbn [combine_item]. rewrite Hl.
    pose proof (wf_call_stringify l h Hwf) as Hwf1.
    destruct obj as [e c b g|d].
    + destruct (builder_array _ _ _ _ _ _ Hwf Hl) as [xs Ha].
      rewrite (call_stringify_builder _ _ _ _ _ _ _ Hwf Hl Ha) in Hwf1 |- *.
      cbn [snd] in Hwf1.
      destruct (IH _ Hwf1) as (h' & Hm & Ho & Hwf').
      { intros l' Hl'. apply Hargs. by right. }
      exists h'. split; [|done]. rewrite bind_unfold, Hm. cbn [arrays objects].
      by rewrite Ha.
    + rewrite (call_stringify_combined _ _ _ Hl).
      destruct (IH h Hwf) as (h' & Hm & Ho & Hwf').
      { intros l' Hl'. apply Hargs. by right. }
      exists h'. split; [|done]. by rewrite bind_unfold, Hm.
Qed.

Lemma call_stringify_objects o h :
  wf h → objects (snd (call_stringify o h)) = objects h.
Proof.
  intros Hwf. destruct (objects h !! o) as [[e c b g|d]|] eqn:Ho.
  - destruct (builder_array _ _ _ _ _ _ Hwf Ho) as [xs Ha].
    by rewrite (call_stringify_builder _ _ _ _ _ _ _ Hwf Ho Ha).
  - by rewrite (call_stringify_combined _ _ _ Ho).
  - unfold call_stringify, read_object. by rewrite bind_unfold, Ho.
Qed.

Lemma mapM_objects args : ∀ h,
  wf h → objects (snd (mapM combine_item args h)) = objects h.
Proof.
  induction args as [|item args IH]; intros h Hwf; [done|].
  cbn [mapM]. rewrite bind_unfold.
  pose proof (wf_combine_item item h Hwf) as Hwf1.
  assert (objects (snd (combine_item item h)) = objects h) as Ho1.
  { destruct item; [done|]. by apply call_stringify_objects. }
  destruct (combine_item item h) as [[s|err] h1]; [|done].
  cbn [snd] in *. rewrite bind_unfold. specialize (IH h1 Hwf1).
  destruct (mapM combine_item args h1) as [[ss|err] h2];
    rewrite ?ret_unfold; cbn [snd] in *; congruence.
Qed.

Lemma exec_keeps_combined op h l d :
  wf h → objects h !! l = Some (Combined d) →
  objects (exec op h) !! l = Some (Combined d).
Proof.
  intros Hwf Hl.
  assert (∀ obj, <[fresh (dom (objects h)) := obj]> (objects h) !! l
                 = Some (Combined d)) as Hfresh.
  { intros obj. rewrite lookup_insert_ne; [done|].
    intros <-. by rewrite fresh_objects_None in Hl. }
  destruct op as [k o v|o|o args]; cbn [exec].
  - destruct (objects h !! o) as [[e c b g|d']|] eqn:Ho.
    + destruct c.
      * destruct (builder_array _ _ _ _ _ _ Hwf Ho) as [xs Ha].
        destruct (call_context _ _ _ _ _ _ k v Hwf Ho Ha) as (r & g' & _ & ->).
        destruct (check xs (fragment k v)); apply Hfresh.
      * rewrite (call_facade _ _ _ _ _ _ _ Hwf Ho). apply Hfresh.
    + by rewrite (call_TypeError_Combined _ _ _ _ _ Ho).
    + by rewrite (call_TypeError_None _ _ _ _ Ho).
  - by rewrite call_stringify_objects.
  - unfold call_combine. rewrite bind_unfold.
    destruct (objects h !! o) as [[e c b g|d']|] eqn:Ho.
    + rewrite (receiver_Builder _ _ _ _ _ _ Ho).
      rewrite combine_unfold, bind_unfold.
      destruct (objects h !! default o b) as [[e1 c1 b1 g1|d1]|] eqn:Hr.
      * rewrite (set_args_Builder _ _ _ _ _ _ _ Hr).
        pose proof (wf_set_args _ _ _ _ _ _ (Some args) Hwf Hr) as Hwf1.
        rewrite bind_unfold.
        pose proof (mapM_objects args _ Hwf1) as Hm.
        destruct (mapM combine_item args _) as [[ss|err] h2];
          cbn [snd objects] in *.
        -- unfold new_object. cbn [snd objects].
           pose proof (fresh_objects_None h2) as Hn. rewrite Hm in *.
           assert (default o b ≠ l) as Hne by (intros <-; congruence).
           rewrite lookup_insert_ne.
           ++ by rewrite lookup_insert_ne.
           ++ intros <-. rewrite lookup_insert_ne in Hn; congruence.
        -- rewrite Hm. rewrite lookup_insert_ne; [done|]. intros <-. congruence.
      * unfold set_args. by rewrite bind_unfold, (read_object_Some _ _ _ Hr).
      * unfold set_args, read_object. by rewrite bind_unfold, Hr.
    + unfold receiver. by rewrite bind_unfold, (read_object_Some _ _ _ Ho).
    + unfold receiver, read_object. by rewrite bind_unfold, Ho.
Qed.

Lemma run_ops_keeps_combined ops : ∀ h l d,
  wf h → objects h !! l = Some (Combined d) →
  objects (run_ops ops h) !! l = Some (Combined d).
Proof.
  induction ops as [|op ops IH]; intros h l d Hwf Hl; [done|].
  apply IH; [by apply wf_exec|by apply exec_keeps_combined].
Qed.

(** C4.  [combine] called with strings and handles of existing objects
    returns a new object whose [data] holds, in argument order, every token
    with one space on each side and every selector as its [stringify()]
    rendered it during the call; [stringify()] on that object returns the
    concatenation of these pieces, whatever is done to the heap afterwards. *)
Theorem C4_combine_text h o e c b g args :
  reachable h → objects h !! o = Some (Builder e c b g) →
  (∀ l, VRef l ∈ args → is_Some (objects h !! l)) →
  ∃ cmb h',
    call_combine o args h = (Ok cmb, h')
    ∧ objects h' !! cmb = Some (Combined (pieces (objects h) (arrays h) args))
    ∧ ∀ ops, call_stringify cmb (run_ops ops h')
             = (Ok (concat_text (pieces (objects h) (arrays h) args)),
                run_ops ops h').
Proof.
  intros Hr Ho Hargs. apply reachable_wf in Hr.
  pose proof (wf_call_combine o args h Hr) as Hwf'.
  unfold call_combine in *. rewrite bind_unfold in *.
  rewrite (receiver_Builder _ _ _ _ _ _ Ho) in *.
  assert (∃ e1 c1 b1 g1, objects h !! default o b = Some (Builder e1 c1 b1 g1))
    as (e1 & c1 & b1 & g1 & Hrec).
  { destruct c.
    - destruct (wf_context _ Hr _ _ _ _ Ho) as (r & g' & -> & Hrr & _). eauto.
    - destruct (wf_facade _ Hr _ _ _ _ Ho) as [-> _]. eauto. }
  rewrite combine_unfold, bind_unfold in *.
  rewrite (set_args_Builder _ _ _ _ _ _ _ Hrec) in *.
  pose proof (wf_set_args _ _ _ _ _ _ (Some args) Hr Hrec) as Hwf1.
  set (h1 := mkHeap _ _) in *.
  destruct (mapM_pieces args h1 Hwf1) as (h2 & Hm & Ho2 & Hwf2).
  { intros l Hl. destruct (Hargs l Hl) as [obj Hobj]. unfold h1. cbn [objects].
    rewrite lookup_insert. case_decide; eauto. }
  rewrite bind_unfold, Hm in *. unfold new_object in *. cbn [snd] in Hwf'.
  assert (pieces (objects h1) (arrays h1) args
          = pieces (objects h) (arrays h) args) as Hp.
  { symmetry. apply pieces_same_targets.
    by apply (same_targets_set_args _ _ _ _ _ _ _ Hrec). }
  rewrite Hp in Hwf' |- *.
  eexists _, _. split; [reflexivity|].
  assert (objects (mkHeap (arrays h2)
            (<[fresh (dom (objects h2)) :=
                 Combined (pieces (objects h) (arrays h) args)]> (objects h2)))
          !! fresh (dom (objects h2))
          = Some (Combined (pieces (objects h) (arrays h) args))) as Hc
    by apply lookup_insert_eq.
  split; [exact Hc|]. intros ops.
  rewrite (call_stringify_combined _ _ _
             (run_ops_keeps_combined ops _ _ _ Hwf' Hc)).
  by rewrite join_concat_text.
Qed.

(** [combine(element('div').id('main'), '+', element('table').id('data'))]
    renders [div#main + table#data]. *)
Lemma C4_witness :
  reachable heap_two_chains
  ∧ objects heap_two_chains !! cssSelectorBuilder
    = Some (Builder 0 false None None)
  ∧ (∀ l, VRef l ∈ combine_args → is_Some (objects heap_two_chains !! l))
  ∧ call_combine cssSelectorBuilder combine_args heap_two_chains
    = (Ok 5, heap_combined)
  ∧ call_stringify 5 heap_combined = (Ok "div#main + table#data", heap_combined).
Proof.
  assert (reachable heap_two_chains) as Hr by (by eexists).
  assert (objects heap_two_chains !! cssSelectorBuilder
          = Some (Builder 0 false None None)) as Ho
    by (vm_compute; reflexivity).
  assert (∀ l, VRef l ∈ combine_args →
               is_Some (objects heap_two_chains !! l)) as Hargs.
  { intros l Hl. unfold combine_args in Hl.
    assert (l = 2 ∨ l = 4) as [-> | ->].
    { apply elem_of_cons in Hl as [Hl|Hl]; [injection Hl; auto|].
      apply elem_of_cons in Hl as [Hl|Hl]; [discriminate Hl|].
      apply elem_of_cons in Hl as [Hl|Hl]; [injection Hl; auto|].
      destruct (not_elem_of_nil _ Hl). }
    - eexists. vm_compute. reflexivity.
    - eexists. vm_compute. reflexivity. }
  assert (call_combine cssSelectorBuilder combine_args heap_two_chains
          = (Ok 5, heap_combined)) as Hc by (vm_compute; reflexivity).
  destruct (C4_combine_text _ _ _ _ _ _ combine_args Hr Ho Hargs)
    as (cmb & h' & Hc' & _ & Hs).
  pose proof (eq_trans (eq_sym Hc') Hc) as Heq.
  pose proof (f_equal snd Heq) as Hh. cbn [snd] in Hh.
  pose proof (f_equal fst Heq) as Ho5. cbn [fst] in Ho5.
  injection Ho5 as Ho5.
  pose proof (Hs []) as Htext. cbn [run_ops foldl] in Htext.
  rewrite Hh, Ho5 in Htext.
  split; [exact Hr|]. split; [exact Ho|]. split; [exact Hargs|].
  split; [exact Hc|]. rewrite Htext. vm_compute. reflexivity.
Defined.


(** ** Rectangle *)

(** The example of the source: [new Rectangle(10, 20)]. *)
Example Rectangle_10_20 :
  width (Rectangle 10 20) = 10%float
  ∧ height (Rectangle 10 20) = 20%float
  ∧ getArea (Rectangle 10 20) tt = 200%float.
Proof. repeat split. Qed.

(** C9. For all numbers [w] and [h], [Rectangle(w, h)] is an object whose
    [width] is [w], whose [height] is [h] and whose [getArea()] returns
    [w * h]; the function is total: nothing is validated and no input makes
    it fail. *)
Theorem C9_Rectangle_fields_and_area (w h : float) :
  width (Rectangle w h) = w
  ∧ height (Rectangle w h) = h
  ∧ getArea (Rectangle w h) tt = (w * h)%float.
Proof. repeat split. Qed.

(** ** getJSON and fromJSON *)

Section JsonBridgeFacts.

Variable JSON_parse : string -> option Json.

(** [fromJSON] is [Object.setPrototypeOf] on what [JSON.parse] reads. *)
Lemma fromJSON_parsed p json v :
  JSON_parse json = Some v →
  fromJSON JSON_parse p json
  = Object_setPrototypeOf {| data := v; proto := None |} p.
Proof.
  intros H. unfold fromJSON. rewrite H.
  by destruct (Object_setPrototypeOf _ p).
Qed.

(** Text that does not parse: the [SyntaxError] of [JSON.parse] comes out. *)
Lemma fromJSON_SyntaxError p json :
  JSON_parse json = None → fromJSON JSON_parse p json = Throw SyntaxError.
Proof. intros H. unfold fromJSON. by rewrite H. Qed.

(** Text that reads as [null]: [Object.setPrototypeOf] raises a
    [TypeError]. *)
Lemma fromJSON_null p json :
  JSON_parse json = Some JNull →
  fromJSON JSON_parse p json = Throw TypeError.
Proof. intros H. by rewrite (fromJSON_parsed _ _ _ H). Qed.

(** Text that reads as a number, string or boolean: the value comes back as
    it is, and no operation of [p] is found on it. *)
Lemma fromJSON_primitive p json v m :
  JSON_parse json = Some v →
  is_object v = false → v ≠ JNull →
  fromJSON JSON_parse p json = Ok {| data := v; proto := None |}
  ∧ operation_of {| data := v; proto := None |} m = None.
Proof.
  intros H Hobj Hnull. rewrite (fromJSON_parsed _ _ _ H).
  unfold Object_setPrototypeOf, operation_of. cbn [data proto].
  by destruct v; try done; case_bool_decide.
Qed.

(** Text that reads as an object or an array: the value comes back with [p]
    as its prototype, and an operation of [p] is found on it unless an own
    property has its name. *)
Lemma fromJSON_object p json v :
  JSON_parse json = Some v →
  is_object v = true →
  fromJSON JSON_parse p json = Ok {| data := v; proto := Some p |}
  ∧ (∀ m, m ∈ operations p → m ∉ own_keys v →
          operation_of {| data := v; proto := Some p |} m = Some p)
  ∧ (∀ m, m ∈ own_keys v →
          operation_of {| data := v; proto := Some p |} m = None).
Proof.
  intros H Hobj. rewrite (fromJSON_parsed _ _ _ H). split; [|split].
  - unfold Object_setPrototypeOf. cbn [data]. by destruct v.
  - intros m Hm Hown. unfold operation_of. cbn [data proto].
    by rewrite bool_decide_eq_false_2, bool_decide_eq_true_2.
  - intros m Hown. unfold operation_of. cbn [data proto].
    by rewrite bool_decide_eq_true_2.
Qed.

End JsonBridgeFacts.

(** ** Further properties of the selector builder *)

Lemma specific_fragment k v : specific (fragment k v) = rank k.
Proof. by destruct k. Qed.

Lemma unit_fragment k v : unit_ (fragment k v) = prefixGlyph k.
Proof. by destruct k. Qed.

Lemma Array_sort_sorted_id l :
  ranks_sorted l → Array_sort by_specific l = l.
Proof.
  unfold ranks_sorted, Array_sort. induction l as [|x l IH]; [done|].
  cbn [map foldr]. intros Hs. apply StronglySorted_inv in Hs as [Hs Hx].
  rewrite (IH Hs). destruct l as [|y l]; [done|].
  cbn [sort_insert]. unfold by_specific at 1.
  cbn [map] in Hx. inversion Hx as [|? ? Hxy _]; subst.
  destruct (Z.ltb_spec 0 (specific x - specific y)); [lia|done].
Qed.

Lemma order_check_iff items :
  Forall built items →
  String.eqb (join "" (map Number_toString (etalonOrder items)))
             (join "" (map Number_toString (currentOrder items))) = true
  ↔ ranks_sorted items.
Proof.
  intros Hb. rewrite etalonOrder_eq. unfold currentOrder. split.
  - intros Heq. apply String.eqb_eq, join_ranks_inj in Heq.
    + unfold ranks_sorted. rewrite <- Heq. apply Array_sort_sorted.
    + apply List.Forall_map, Array_sort_Forall.
      eapply Forall_impl; [exact Hb|]. apply built_rank.
    + apply List.Forall_map. eapply Forall_impl; [exact Hb|]. apply built_rank.
  - intros Hs. rewrite (Array_sort_sorted_id _ Hs). apply String.eqb_refl.
Qed.

Lemma ranks_sorted_snoc_iff xs c :
  ranks_sorted xs →
  ranks_sorted (xs ++ [c]) ↔ ∀ f, f ∈ xs → (specific f <= specific c)%Z.
Proof.
  intros Hxs. split; [intros Hs f; by apply ranks_sorted_snoc|].
  unfold ranks_sorted in *. induction xs as [|x xs IH]; intros Hall.
  - cbn. repeat constructor.
  - cbn [app map] in *. apply StronglySorted_inv in Hxs as [Hxs Hx].
    constructor.
    + apply IH; [done|]. intros f Hf. apply Hall. by right.
    + rewrite map_app. apply Forall_app. split; [done|].
      constructor; [|constructor]. apply Hall. by left.
Qed.

Lemma hasInElems_None_inv xs cur el :
  hasInElems xs cur = None → el ∈ xs → unit_ el ≠ unit_ cur.
Proof.
  intros Hf Hel Hu. apply list_elem_of_In in Hel.
  pose proof (find_none _ _ Hf _ Hel) as Hn. cbv beta in Hn.
  rewrite Hu, String.eqb_refl, orb_true_r in Hn. done.
Qed.

Lemma clashes_iff xs k v :
  Forall built xs →
  clashes k xs ↔
  oneType (fragment k v) = true ∧ is_Some (hasInElems xs (fragment k v)).
Proof.
  intros Hb. rewrite oneType_fragment. split.
  - intros Hc.
    assert (one_of_a_kind k = true ∧
            ∃ k' v', fragment k' v' ∈ xs
                     ∧ unit_ (fragment k' v') = unit_ (fragment k v))
      as (Hk & k' & v' & Hin & Hu).
    { destruct k; cbn [clashes] in Hc; try done.
      - split; [done|]. destruct Hc as [[v' Hc]|[v' Hc]]; eauto.
      - split; [done|]. destruct Hc as [v' Hc]; eauto.
      - split; [done|]. destruct Hc as [v' Hc]; eauto. }
    split; [done|]. by eapply hasInElems_Some.
  - intros [Hk Hs]. apply hasInElems_is_Some in Hs as (el & Hel & Hu).
    pose proof (proj1 (Forall_forall _ _) Hb el Hel) as (k' & v' & ->).
    apply unit_fragment_eq in Hu as [->|[[-> ->]|[-> ->]]].
    + destruct k; try discriminate Hk; cbn [clashes];
        [left| |]; by exists v'.
    + discriminate Hk.
    + right. by exists v'.
Qed.

Lemma check_None_iff xs k v :
  Forall built xs →
  check xs (fragment k v) = None
  ↔ ¬ clashes k xs ∧ ranks_sorted (xs ++ [fragment k v]).
Proof.
  intros Hb.
  assert (Forall built (xs ++ [fragment k v])) as Hb'.
  { apply Forall_app. split; [done|]. constructor; [apply built_fragment|constructor]. }
  pose proof (order_check_iff _ Hb') as Ho.
  pose proof (clashes_iff xs k v Hb) as Hc.
  unfold check.
  destruct (oneType (fragment k v)) eqn:Hone; cbn [andb].
  - case_bool_decide as Hs.
    + split; [done|]. intros [Hn _]. destruct Hn. by apply Hc.
    + destruct (String.eqb _ _).
      * split; [|done]. intros _. split; [|by apply Ho].
        intros Hcl. apply Hc in Hcl as [_ ?]. done.
      * split; [done|]. intros [_ Hs']. apply Ho in Hs'. done.
  - destruct (String.eqb _ _).
    + split; [|done]. intros _. split; [|by apply Ho].
      intros Hcl. apply Hc in Hcl as [? _]. done.
    + split; [done|]. intros [_ Hs']. apply Ho in Hs'. done.
Qed.

Lemma check_nil k v : check [] (fragment k v) = None.
Proof. by destruct k. Qed.

Section ArrayInvariant.

Variable P : list Fragment → Prop.
Hypothesis P_nil : P [].
Hypothesis P_push : ∀ xs k v,
  P xs → Forall built xs → check xs (fragment k v) = None →
  P (xs ++ [fragment k v]).

Lemma all_arrays_insert h a ys :
  all_arrays P h → P ys →
  all_arrays P (mkHeap (<[a := ys]> (arrays h)) (objects h)).
Proof.
  intros Hall Hys a' xs. cbn [arrays]. rewrite lookup_insert.
  case_decide; [by intros [= <-]|apply Hall].
Qed.

Lemma all_arrays_call k o v h :
  wf h → all_arrays P h → all_arrays P (snd (call k o v h)).
Proof.
  intros Hwf Hall.
  destruct (objects h !! o) as [[e c b g|d]|] eqn:Ho.
  - destruct c.
    + destruct (builder_array _ _ _ _ _ _ Hwf Ho) as [xs Ha].
      destruct (call_context _ _ _ _ _ _ k v Hwf Ho Ha) as (r & g' & _ & ->).
      destruct (check xs (fragment k v)) eqn:Hck; cbn [snd]; [done|].
      intros a ys. cbn [arrays]. rewrite lookup_insert.
      case_decide; [|apply Hall]. intros [= <-].
      apply P_push; [by apply (Hall e)|by apply (wf_built _ Hwf e)|done].
    + rewrite (call_facade _ _ _ _ _ _ _ Hwf Ho). cbn [snd].
      intros a ys. cbn [arrays]. rewrite lookup_insert.
      case_decide; [|apply Hall]. intros [= <-].
      apply (P_push [] k v); [done|constructor|apply check_nil].
  - by rewrite (call_TypeError_Combined _ _ _ _ _ Ho).
  - by rewrite (call_TypeError_None _ _ _ _ Ho).
Qed.

Lemma all_arrays_call_stringify o h :
  wf h → all_arrays P h → all_arrays P (snd (call_stringify o h)).
Proof.
  intros Hwf Hall.
  destruct (objects h !! o) as [[e c b g|d]|] eqn:Ho.
  - destruct (builder_array _ _ _ _ _ _ Hwf Ho) as [xs Ha].
    rewrite (call_stringify_builder _ _ _ _ _ _ _ Hwf Ho Ha). cbn [snd].
    by apply all_arrays_insert.
  - by rewrite (call_stringify_combined _ _ _ Ho).
  - unfold call_stringify, read_object. by rewrite bind_unfold, Ho.
Qed.

Lemma all_arrays_mapM args : ∀ h,
  wf h → all_arrays P h → all_arrays P (snd (mapM combine_item args h)).
Proof.
  induction args as [|item args IH]; intros h Hwf Hall; [done|].
  cbn [mapM]. rewrite bind_unfold.
  pose proof (wf_combine_item item h Hwf) as Hwf1.
  assert (all_arrays P (snd (combine_item item h))) as Hall1.
  { destruct item; [done|]. by apply all_arrays_call_stringify. }
  destruct (combine_item item h) as [[s|err] h1]; [|done].
  cbn [snd] in *. rewrite bind_unfold. specialize (IH h1 Hwf1 Hall1).
  by destruct (mapM combine_item args h1) as [[ss|err] h2].
Qed.

Lemma all_arrays_call_combine o args h :
  wf h → all_arrays P h → all_arrays P (snd (call_combine o args h)).
Proof.
  intros Hwf Hall. unfold call_combine. rewrite bind_unfold.
  destruct (objects h !! o) as [[e c b g|d]|] eqn:Ho.
  - rewrite (receiver_Builder _ _ _ _ _ _ Ho).
    rewrite combine_unfold, bind_unfold.
    destruct (objects h !! default o b) as [[e1 c1 b1 g1|d1]|] eqn:Hr.
    + rewrite (set_args_Builder _ _ _ _ _ _ _ Hr).
      pose proof (wf_set_args _ _ _ _ _ _ (Some args) Hwf Hr) as Hwf1.
      rewrite bind_unfold.
      pose proof (all_arrays_mapM args _ Hwf1 Hall) as Hm.
      by destruct (mapM combine_item args _) as [[ss|err] h2].
    + unfold set_args. by rewrite bind_unfold, (read_object_Some _ _ _ Hr).
    + unfold set_args, read_object. by rewrite bind_unfold, Hr.
  - unfold receiver. by rewrite bind_unfold, (read_object_Some _ _ _ Ho).
  - unfold receiver, read_object. by rewrite bind_unfold, Ho.
Qed.

Lemma all_arrays_exec op h :
  wf h → all_arrays P h → all_arrays P (exec op h).
Proof.
  destruct op; cbn [exec];
    [apply all_arrays_call | apply all_arrays_call_stringify
    | apply all_arrays_call_combine].
Qed.

Lemma all_arrays_run_ops ops : ∀ h,
  wf h → all_arrays P h → all_arrays P (run_ops ops h).
Proof.
  induction ops as [|op ops IH]; intros h Hwf Hall; [done|].
  apply IH; [by apply wf_exec|by apply all_arrays_exec].
Qed.

Lemma all_arrays_reachable h : reachable h → all_arrays P h.
Proof.
  intros [ops ->]. apply all_arrays_run_ops; [apply wf_initial|].
  rewrite initial_heap_eq. intros a xs. cbn [arrays].
  intros [<- <-]%lookup_singleton_Some. done.
Qed.

Lemma all_arrays_chain calls : ∀ o h,
  wf h → all_arrays P h → all_arrays P (snd (chain calls o h)).
Proof.
  induction calls as [|[k v] calls IH]; intros o h Hwf Hall; [done|].
  cbn [chain]. rewrite bind_unfold.
  pose proof (wf_call k o v h Hwf) as Hwf1.
  pose proof (all_arrays_call k o v h Hwf Hall) as Hall1.
  destruct (call k o v h) as [[o1|err] h1]; [|done].
  by apply IH.
Qed.

End ArrayInvariant.

Lemma rank_inj k k' : rank k = rank k' → k = k'.
Proof. destruct k, k'; cbn; intros H; try discriminate H; done. Qed.

Lemma single_rank_kind k : single_rank (rank k) = one_of_a_kind k.
Proof. by destruct k. Qed.

Lemma one_of_a_kind_clashes k xs :
  one_of_a_kind k = true → has_kind k xs → clashes k xs.
Proof. destruct k; cbn; try done. by left. Qed.

Lemma well_ordered_nil : well_ordered [].
Proof. split; [constructor|]. cbn. constructor. Qed.

Lemma well_ordered_push xs k v :
  well_ordered xs → Forall built xs → check xs (fragment k v) = None →
  well_ordered (xs ++ [fragment k v]).
Proof.
  intros [Hs Hn] Hb Hck. apply (check_None_iff _ _ _ Hb) in Hck as [Hcl Hs'].
  split; [done|].
  rewrite map_app, List.filter_app. cbn [map List.filter].
  rewrite specific_fragment, single_rank_kind.
  destruct (one_of_a_kind k) eqn:Hk; [|by rewrite app_nil_r].
  apply NoDup_app. split; [done|]. split; [|apply NoDup_singleton].
  intros z Hz Hz'. apply list_elem_of_singleton in Hz'. subst z.
  apply list_elem_of_In, filter_In in Hz as [Hz _].
  apply in_map_iff in Hz as (el & Hel & Hin). apply list_elem_of_In in Hin.
  pose proof (proj1 (Forall_forall _ _) Hb el Hin) as (k' & v' & ->).
  rewrite specific_fragment in Hel. apply rank_inj in Hel as ->.
  apply Hcl, one_of_a_kind_clashes; [done|]. by exists v'.
Qed.

Lemma reachable_well_ordered h : reachable h → all_arrays well_ordered h.
Proof.
  apply all_arrays_reachable; [apply well_ordered_nil|apply well_ordered_push].
Qed.

(** X4.  In every heap the module can reach, every array is in
    non-decreasing order of rank and holds at most one element, at most one
    id and at most one pseudo-element. *)
Theorem X4_arrays_stay_well_ordered h a xs :
  reachable h → arrays h !! a = Some xs →
  ranks_sorted xs ∧ NoDup (List.filter single_rank (map specific xs)).
Proof. intros Hr Ha. by apply (reachable_well_ordered h Hr a). Qed.

Lemma X4_arrays_stay_well_ordered_witness :
  reachable heap_element_id
  ∧ arrays heap_element_id !! 1 = Some [fragment Element "a"; fragment Id "x"]
  ∧ ranks_sorted [fragment Element "a"; fragment Id "x"]
  ∧ NoDup (List.filter single_rank
             (map specific [fragment Element "a"; fragment Id "x"])).
Proof.
  assert (reachable heap_element_id) as Hr by (by eexists).
  assert (arrays heap_element_id !! 1
          = Some [fragment Element "a"; fragment Id "x"]) as Ha
    by (vm_compute; reflexivity).
  split; [exact Hr|]. split; [exact Ha|].
  exact (X4_arrays_stay_well_ordered heap_element_id 1 _ Hr Ha).
Defined.

Lemma specific_fragments calls :
  map specific (fragments calls) = map (λ c, rank c.1) calls.
Proof.
  unfold fragments. rewrite map_map. apply map_ext.
  intros [k v]. apply specific_fragment.
Qed.

(** X5.  A chain of calls from the facade that goes through was made in
    non-decreasing order of rank, with at most one element, one id and one
    pseudo-element among the calls. *)
Theorem X5_accepted_chain_well_ordered h calls o h' :
  reachable h → chain calls cssSelectorBuilder h = (Ok o, h') →
  StronglySorted Z.le (map (λ c, rank c.1) calls)
  ∧ NoDup (List.filter single_rank (map (λ c, rank c.1) calls)).
Proof.
  intros Hr Hc. pose proof (reachable_well_ordered h Hr) as Hall.
  apply reachable_wf in Hr.
  pose proof (all_arrays_chain well_ordered well_ordered_nil well_ordered_push
                calls cssSelectorBuilder h Hr Hall) as Hall'.
  rewrite Hc in Hall'. cbn [snd] in Hall'.
  destruct (chain_facade _ _ _ _ Hr Hc) as [_ (e & c & b & g & _ & Ha)].
  destruct (Hall' _ _ Ha) as [Hs Hn]. unfold ranks_sorted in Hs.
  by rewrite specific_fragments in Hs, Hn.
Qed.

Lemma X5_accepted_chain_witness :
  reachable initial_heap
  ∧ ∃ o h', chain [(Element, "a"); (Id, "x"); (Class_, "y"); (Class_, "z")]
              cssSelectorBuilder initial_heap = (Ok o, h')
    ∧ StronglySorted Z.le [0; 1; 2; 2]%Z
    ∧ NoDup [0; 1]%Z.
Proof.
  assert (reachable initial_heap) as Hr by (by exists []).
  split; [exact Hr|]. eexists _, _. split; [vm_compute; reflexivity|].
  eapply (X5_accepted_chain_well_ordered initial_heap
            [(Element, "a"); (Id, "x"); (Class_, "y"); (Class_, "z")] _ _ Hr).
  vm_compute; reflexivity.
Defined.

(** X3.  Appending to a chain that was created before goes through, and
    yields a handle on the old fragments followed by the new one, exactly when
    no fragment of the chain has a higher rank than the new one and, for an
    element, id or pseudo-element, the chain holds no fragment of that kind.
    A class, an attribute and a pseudo-class may repeat. *)
Theorem X3_append_accepted_iff h o e b g xs k v :
  reachable h → objects h !! o = Some (Builder e true b g) →
  arrays h !! e = Some xs →
  (∃ o' h', call k o v h = (Ok o', h')
            ∧ chain_of h' o' (xs ++ [fragment k v]))
  ↔ (∀ el, el ∈ xs → (specific el <= rank k)%Z)
    ∧ (one_of_a_kind k = true → ¬ has_kind k xs).
Proof.
  intros Hr Ho Ha. destruct (reachable_well_ordered h Hr _ _ Ha) as [Hs _].
  apply reachable_wf in Hr. pose proof (wf_built _ Hr _ _ Ha) as Hb.
  destruct (call_context _ _ _ _ _ _ k v Hr Ho Ha) as (r & g' & _ & ->).
  pose proof (check_None_iff xs k v Hb) as Hck.
  rewrite (ranks_sorted_snoc_iff _ _ Hs), specific_fragment in Hck.
  split.
  - intros (o' & h' & Hcall & _).
    destruct (check xs (fragment k v)); [done|].
    destruct (proj1 Hck eq_refl) as [Hcl Hle]. split; [done|].
    intros Hk Hh. by apply Hcl, one_of_a_kind_clashes.
  - intros [Hle Hu].
    assert (check xs (fragment k v) = None) as ->.
    { apply Hck. split; [|done]. intros Hcl.
      destruct k; cbn [clashes] in Hcl; try done.
      - destruct Hcl as [Hcl|[v' Hcl]]; [by apply Hu|].
        specialize (Hle _ Hcl). cbn in Hle. lia.
      - by apply Hu.
      - by apply Hu. }
    eexists _, _. split; [done|].
    eexists _, _, _, _. cbn [arrays objects]. split; apply lookup_insert_eq.
Qed.

Lemma X3_append_accepted_witness :
  reachable heap_id_class
  ∧ objects heap_id_class !! 2 = Some (Builder 1 true (Some 1) None)
  ∧ arrays heap_id_class !! 1 = Some [fragment Id "a"; fragment Class_ "c"]
  ∧ (∃ o' h', call Class_ 2 "d" heap_id_class = (Ok o', h')
        ∧ chain_of h' o' ([fragment Id "a"; fragment Class_ "c"]
                           ++ [fragment Class_ "d"]))
  ∧ ¬ (∃ o' h', call Id 2 "b" heap_id_class = (Ok o', h')
        ∧ chain_of h' o' ([fragment Id "a"; fragment Class_ "c"]
                           ++ [fragment Id "b"])).
Proof.
  assert (reachable heap_id_class) as Hr by (by eexists).
  assert (objects heap_id_class !! 2 = Some (Builder 1 true (Some 1) None))
    as Ho by (vm_compute; reflexivity).
  assert (arrays heap_id_class !! 1
          = Some [fragment Id "a"; fragment Class_ "c"]) as Ha
    by (vm_compute; reflexivity).
  split; [exact Hr|]. split; [exact Ho|]. split; [exact Ha|]. split.
  - apply (X3_append_accepted_iff _ _ _ _ _ _ Class_ "d" Hr Ho Ha). split.
    + intros el Hel.
      apply elem_of_cons in Hel as [->|Hel]; [cbn; lia|].
      apply elem_of_cons in Hel as [->|Hel]; [cbn; lia|].
      destruct (not_elem_of_nil _ Hel).
    + intros Hk. discriminate Hk.
  - intros Hex.
    apply (X3_append_accepted_iff _ _ _ _ _ _ Id "b" Hr Ho Ha) in Hex as [_ Hu].
    apply Hu; [reflexivity|]. exists "a". apply list_elem_of_here.
Defined.

(** X1.  On an array of fragments built by the six methods,
    [checkOneOfType] throws the error about duplicates exactly when the new
    fragment is an id and the array holds an id, or is a pseudo-element and
    the array holds a pseudo-element, or is an element and the array holds an
    element or an attribute; for a class, an attribute or a pseudo-class it
    never throws.  Thrown or not, the call has written the new fragment to
    the [current] of its receiver and nothing else: the arrays and the other
    properties of the objects are as before. *)
Theorem X1_checkOneOfType_throws_iff_clash h this e xs k v :
  arrays h !! e = Some xs → Forall built xs →
  (clashes k xs →
   checkOneOfType e (fragment k v) this h
   = (Throw (JsError duplicate_message), set_current this (fragment k v), h))
  ∧ (¬ clashes k xs →
     checkOneOfType e (fragment k v) this h
     = (Ok tt, set_current this (fragment k v), h)).
Proof.
  intros Ha Hb. rewrite (checkOneOfType_Some _ this _ _ _ Ha).
  pose proof (clashes_iff xs k v Hb) as Hc. split.
  - intros [-> Hs]%Hc. by rewrite bool_decide_eq_true_2.
  - intros Hn. destruct (oneType (fragment k v)) eqn:Hone; [|done].
    rewrite bool_decide_eq_false_2; [done|]. intros Hs. by apply Hn, Hc.
Qed.

Lemma built_singleton k v : Forall built [fragment k v].
Proof. constructor; [apply built_fragment|constructor]. Qed.

Lemma X1_checkOneOfType_witness :
  arrays heap_attr !! 1 = Some [fragment Attr "x"]
  ∧ Forall built [fragment Attr "x"]
  ∧ clashes Element [fragment Attr "x"]
  ∧ checkOneOfType 1 (fragment Element "e") new_instance heap_attr
    = (Throw (JsError duplicate_message),
       mkInstance (Some (fragment Element "e")), heap_attr)
  ∧ ¬ clashes Class_ [fragment Attr "x"]
  ∧ checkOneOfType 1 (fragment Class_ "c") new_instance heap_attr
    = (Ok tt, mkInstance (Some (fragment Class_ "c")), heap_attr).
Proof.
  assert (arrays heap_attr !! 1 = Some [fragment Attr "x"]) as Ha
    by (vm_compute; reflexivity).
  pose proof (built_singleton Attr "x") as Hb.
  assert (clashes Element [fragment Attr "x"]) as Hc.
  { right. exists "x". apply list_elem_of_here. }
  assert (¬ clashes Class_ [fragment Attr "x"]) as Hn by (intros []).
  split; [exact Ha|]. split; [exact Hb|]. split; [exact Hc|].
  split; [exact (proj1 (X1_checkOneOfType_throws_iff_clash
                          heap_attr new_instance 1 _ Element "e" Ha Hb) Hc)|].
  split; [exact Hn|].
  exact (proj2 (X1_checkOneOfType_throws_iff_clash
                  heap_attr new_instance 1 _ Class_ "c" Ha Hb) Hn).
Defined.

(** X2.  On fragments built by the six methods, [checkOrder] returns when
    the ranks of the array followed by the new fragment are in non-decreasing
    order, and throws the error about the order when they are not.  Thrown
    or not, the call has written the new fragment to the [current] of its
    receiver and nothing else: the arrays and the other properties of the
    objects are as before. *)
Theorem X2_checkOrder_throws_iff_unsorted h this e xs cur :
  arrays h !! e = Some xs → Forall built xs → built cur →
  (ranks_sorted (xs ++ [cur]) →
   checkOrder e cur this h = (Ok tt, set_current this cur, h))
  ∧ (¬ ranks_sorted (xs ++ [cur]) →
     checkOrder e cur this h
     = (Throw (JsError order_message), set_current this cur, h)).
Proof.
  intros Ha Hb Hcur. rewrite (checkOrder_Some _ this _ _ _ Ha).
  assert (Forall built (xs ++ [cur])) as Hb'.
  { apply Forall_app. split; [done|]. by constructor. }
  pose proof (order_check_iff _ Hb') as Ho. split.
  - intros Hs. by rewrite (proj2 Ho Hs).
  - intros Hn. destruct (String.eqb _ _); [|done]. by destruct Hn; apply Ho.
Qed.

Lemma X2_checkOrder_witness :
  arrays heap_class !! 1 = Some [fragment Class_ "c"]
  ∧ Forall built [fragment Class_ "c"]
  ∧ built (fragment Attr "t") ∧ built (fragment Id "x")
  ∧ ranks_sorted ([fragment Class_ "c"] ++ [fragment Attr "t"])
  ∧ checkOrder 1 (fragment Attr "t") new_instance heap_class
    = (Ok tt, mkInstance (Some (fragment Attr "t")), heap_class)
  ∧ ¬ ranks_sorted ([fragment Class_ "c"] ++ [fragment Id "x"])
  ∧ checkOrder 1 (fragment Id "x") new_instance heap_class
    = (Throw (JsError order_message),
       mkInstance (Some (fragment Id "x")), heap_class).
Proof.
  assert (arrays heap_class !! 1 = Some [fragment Class_ "c"]) as Ha
    by (vm_compute; reflexivity).
  pose proof (built_singleton Class_ "c") as Hb.
  assert (ranks_sorted ([fragment Class_ "c"] ++ [fragment Attr "t"])) as Hs.
  { unfold ranks_sorted. cbn. repeat constructor. lia. }
  assert (¬ ranks_sorted ([fragment Class_ "c"] ++ [fragment Id "x"])) as Hn.
  { unfold ranks_sorted. cbn. intros H. apply StronglySorted_inv in H as [_ H].
    inversion H as [|? ? Hle _]. lia. }
  split; [exact Ha|]. split; [exact Hb|].
  split; [apply built_fragment|]. split; [apply built_fragment|].
  split; [exact Hs|].
  split; [exact (proj1 (X2_checkOrder_throws_iff_unsorted
                          heap_class new_instance 1 _ _ Ha Hb
                          (built_fragment Attr "t")) Hs)|].
  split; [exact Hn|].
  exact (proj2 (X2_checkOrder_throws_iff_unsorted
                  heap_class new_instance 1 _ _ Ha Hb
                  (built_fragment Id "x")) Hn).
Defined.

Lemma heap_eta h : mkHeap (arrays h) (objects h) = h.
Proof. by destruct h. Qed.

(** X7.  A fragment-adding call on the facade never throws, whatever the
    kind and the value: it returns a handle that did not exist before, on the
    new fragment alone; every chain that existed keeps its fragments; and
    [stringify()] on the facade returns the empty string and leaves the heap
    as it is. *)
Theorem X7_facade_call_never_fails h k v :
  reachable h →
  ∃ o h', call k cssSelectorBuilder v h = (Ok o, h')
    ∧ objects h !! o = None
    ∧ chain_of h' o [fragment k v]
    ∧ (∀ o0 xs, chain_of h o0 xs → chain_of h' o0 xs)
    ∧ call_stringify cssSelectorBuilder h' = (Ok "", h').
Proof.
  intros Hr. apply reachable_wf in Hr.
  destruct (wf_root _ Hr) as (e & g & Hf).
  pose proof (wf_call k cssSelectorBuilder v h Hr) as Hwf'.
  rewrite (call_facade _ _ _ _ _ k v Hr Hf) in Hwf' |- *. cbn [snd] in Hwf'.
  pose proof (fresh_objects_None h) as Hfo.
  pose proof (fresh_arrays_None h) as Hfa.
  set (o := fresh (dom (objects h))) in *.
  set (a := fresh (dom (arrays h))) in *.
  set (h' := mkHeap _ _) in *.
  eexists _, _. split; [done|]. split; [done|].
  split. { eexists _, _, _, _. split; apply lookup_insert_eq. }
  split.
  { intros o0 xs (e0 & c0 & b0 & g0 & Ho0 & Ha0). exists e0, c0, b0, g0.
    unfold h'. cbn [arrays objects]. split.
    - rewrite lookup_insert_ne; [done|]. intros <-. congruence.
    - rewrite lookup_insert_ne; [done|]. intros <-. congruence. }
  destruct (wf_root _ Hwf') as (e' & g' & Hf').
  destruct (wf_facade _ Hwf' _ _ _ _ Hf') as [_ Ha'].
  rewrite (call_stringify_builder _ _ _ _ _ _ _ Hwf' Hf' Ha').
  by rewrite (insert_id _ _ _ Ha'), heap_eta.
Qed.

Lemma X7_facade_call_witness :
  reachable heap_id
  ∧ ∃ o h', call Id cssSelectorBuilder "b" heap_id = (Ok o, h')
      ∧ chain_of h' o [fragment Id "b"]
      ∧ chain_of h' 1 [fragment Id "a"]
      ∧ call_stringify cssSelectorBuilder h' = (Ok "", h').
Proof.
  assert (reachable heap_id) as Hr by (by eexists).
  assert (chain_of heap_id 1 [fragment Id "a"]) as Hch.
  { eexists _, _, _, _. split; vm_compute; reflexivity. }
  split; [exact Hr|].
  destruct (X7_facade_call_never_fails heap_id Id "b" Hr)
    as (o & h' & Hc & _ & H1 & H2 & H3).
  exists o, h'. split; [exact Hc|]. split; [exact H1|].
  split; [exact (H2 _ _ Hch)|]. exact H3.
Defined.

(** X8.  [stringify()] on a handle creates no object and changes no object;
    every handle that refers to the same array is empty afterwards, and every
    handle on another array keeps its fragments. *)
Theorem X8_stringify_empties_shared_array h o e c b g o' ys :
  reachable h → objects h !! o = Some (Builder e c b g) →
  chain_of h o' ys →
  ∃ s h', call_stringify o h = (Ok s, h')
    ∧ objects h' = objects h
    ∧ (elems_of h o' = Some e → chain_of h' o' [])
    ∧ (elems_of h o' ≠ Some e → chain_of h' o' ys).
Proof.
  intros Hr Ho (e' & c' & b' & g' & Ho' & Ha'). apply reachable_wf in Hr.
  destruct (builder_array _ _ _ _ _ _ Hr Ho) as [xs Ha].
  rewrite (call_stringify_builder _ _ _ _ _ _ _ Hr Ho Ha).
  eexists _, _. split; [done|]. split; [done|].
  unfold elems_of. rewrite Ho'. split.
  - intros [= ->]. exists e, c', b', g'. split; [done|]. apply lookup_insert_eq.
  - intros Hne. exists e', c', b', g'. split; [done|]. cbn [arrays].
    rewrite lookup_insert_ne; [done|]. congruence.
Qed.

Lemma X8_stringify_shared_witness :
  reachable heap_element_extended
  ∧ objects heap_element_extended !! 2 = Some (Builder 1 true (Some 1) None)
  ∧ chain_of heap_element_extended 1 [fragment Element "e"; fragment Id "x"]
  ∧ elems_of heap_element_extended 1 = Some 1
  ∧ ∃ s h', call_stringify 2 heap_element_extended = (Ok s, h')
            ∧ chain_of h' 1 [].
Proof.
  assert (reachable heap_element_extended) as Hr.
  { exists [OpCall Element cssSelectorBuilder "e"; OpCall Id 1 "x"].
    reflexivity. }
  assert (objects heap_element_extended !! 2
          = Some (Builder 1 true (Some 1) None)) as Ho
    by (vm_compute; reflexivity).
  assert (chain_of heap_element_extended 1
            [fragment Element "e"; fragment Id "x"]) as Hch.
  { eexists _, _, _, _. split; vm_compute; reflexivity. }
  assert (elems_of heap_element_extended 1 = Some 1) as He
    by (vm_compute; reflexivity).
  split; [exact Hr|]. split; [exact Ho|]. split; [exact Hch|].
  split; [exact He|].
  destruct (X8_stringify_empties_shared_array _ _ _ _ _ _ _ _ Hr Ho Hch)
    as (s & h' & Hs & _ & H1 & _).
  exists s, h'. split; [exact Hs|]. exact (H1 He).
Defined.

(** X9.  Once [stringify()] has emptied a chain, a fragment of any kind can
    be appended to it, also of a kind it held before; the chain then holds
    that fragment alone and renders it. *)
Theorem X9_emptied_chain_takes_any_fragment h o e b g k v :
  reachable h → objects h !! o = Some (Builder e true b g) →
  ∃ s h1 o' h2 h3,
    call_stringify o h = (Ok s, h1)
    ∧ call k o v h1 = (Ok o', h2)
    ∧ chain_of h2 o [fragment k v]
    ∧ call_stringify o' h2 = (Ok (render [fragment k v]), h3).
Proof.
  intros Hr Ho. apply reachable_wf in Hr.
  destruct (builder_array _ _ _ _ _ _ Hr Ho) as [xs Ha].
  pose proof (wf_call_stringify o h Hr) as Hwf1.
  rewrite (call_stringify_builder _ _ _ _ _ _ _ Hr Ho Ha) in Hwf1 |- *.
  cbn [snd] in Hwf1. set (h1 := mkHeap _ _) in *.
  assert (objects h1 !! o = Some (Builder e true b g)) as Ho1 by done.
  assert (arrays h1 !! e = Some []) as Ha1 by apply lookup_insert_eq.
  pose proof (wf_call k o v h1 Hwf1) as Hwf2.
  destruct (call_context _ _ _ _ _ _ k v Hwf1 Ho1 Ha1) as (r & g' & _ & Hc).
  rewrite check_nil in Hc. rewrite Hc in Hwf2. cbn [snd app] in *.
  pose proof (fresh_objects_ne _ _ _ Ho1) as Hne.
  set (h2 := mkHeap _ _) in *.
  eexists _, _, _, _, _. split; [done|]. split; [exact Hc|]. split.
  { exists e, true, b, g. unfold h2. cbn [arrays objects].
    split; [by rewrite lookup_insert_ne|apply lookup_insert_eq]. }
  apply (call_stringify_builder _ _ e true (Some r) g' _ Hwf2);
    apply lookup_insert_eq.
Qed.

Lemma X9_emptied_chain_witness :
  reachable heap_id
  ∧ objects heap_id !! 1 = Some (Builder 1 true (Some 1) None)
  ∧ ∃ s h1 o' h2 h3,
      call_stringify 1 heap_id = (Ok s, h1)
      ∧ call Id 1 "b" h1 = (Ok o', h2)
      ∧ chain_of h2 1 [fragment Id "b"]
      ∧ call_stringify o' h2 = (Ok "#b", h3).
Proof.
  assert (reachable heap_id) as Hr by (by eexists).
  assert (objects heap_id !! 1 = Some (Builder 1 true (Some 1) None)) as Ho
    by (vm_compute; reflexivity).
  split; [exact Hr|]. split; [exact Ho|].
  exact (X9_emptied_chain_takes_any_fragment heap_id 1 _ _ _ Id "b" Hr Ho).
Defined.

Lemma refs_exist_cons objs item args :
  refs_exist objs (item :: args) → refs_exist objs args.
Proof. intros H l Hl. apply H. by right. Qed.

Lemma refs_exist_app objs args1 args2 :
  refs_exist objs (args1 ++ args2)
  ↔ refs_exist objs args1 ∧ refs_exist objs args2.
Proof.
  unfold refs_exist. split.
  - intros H. split; intros l Hl; apply H, elem_of_app; auto.
  - intros [H1 H2] l [Hl|Hl]%elem_of_app; auto.
Qed.

Lemma pieces_local objs objs' args :
  (∀ l, VRef l ∈ args → target objs l = target objs' l) →
  ∀ arrs, pieces objs arrs args = pieces objs' arrs args.
Proof.
  induction args as [|[t|l] args IH]; intros Hs arrs; cbn [pieces].
  - done.
  - rewrite IH; [done|]. intros l Hl. apply Hs. by right.
  - pose proof (Hs l (list_elem_of_here _ _)) as Hl. unfold target in Hl.
    assert (∀ arrs, pieces objs arrs args = pieces objs' arrs args) as IH'.
    { apply IH. intros l' Hl'. apply Hs. by right. }
    destruct (objs !! l) as [[e c b g|d]|], (objs' !! l) as [[e' c' b' g'|d']|];
      simplify_eq; by rewrite ?IH'.
Qed.

Lemma consumed_local objs objs' args :
  (∀ l, VRef l ∈ args → target objs l = target objs' l) →
  ∀ arrs, consumed objs arrs args = consumed objs' arrs args.
Proof.
  induction args as [|[t|l] args IH]; intros Hs arrs; cbn [consumed].
  - done.
  - apply IH. intros l Hl. apply Hs. by right.
  - pose proof (Hs l (list_elem_of_here _ _)) as Hl. unfold target in Hl.
    assert (∀ arrs, consumed objs arrs args = consumed objs' arrs args) as IH'.
    { apply IH. intros l' Hl'. apply Hs. by right. }
    destruct (objs !! l) as [[e c b g|d]|], (objs' !! l) as [[e' c' b' g'|d']|];
      simplify_eq; by rewrite ?IH'.
Qed.

Lemma target_set_args objs r e c b g g' l :
  objs !! r = Some (Builder e c b g) →
  target (<[r := Builder e c b g']> objs) l = target objs l.
Proof.
  intros Hr. unfold target. rewrite lookup_insert.
  case_decide as Hd; [|done]. subst. by rewrite Hr.
Qed.

Lemma target_fresh objs c obj l :
  objs !! c = None → is_Some (objs !! l) →
  target (<[c := obj]> objs) l = target objs l.
Proof.
  intros Hc [x Hl]. unfold target. rewrite lookup_insert_ne; [done|].
  intros <-. congruence.
Qed.

Lemma pieces_app objs args1 args2 : ∀ arrs,
  refs_exist objs args1 →
  pieces objs arrs (args1 ++ args2)
  = pieces objs arrs args1 ++ pieces objs (consumed objs arrs args1) args2.
Proof.
  induction args1 as [|[t|l] args1 IH]; intros arrs Hex;
    cbn [app pieces consumed].
  - done.
  - rewrite IH; [done|by eapply refs_exist_cons].
  - destruct (Hex l) as [obj Hl]; [by left|]. rewrite Hl.
    destruct obj; rewrite IH; done || by eapply refs_exist_cons.
Qed.

Lemma mapM_consumed args : ∀ h,
  wf h → refs_exist (objects h) args →
  ∃ h', mapM combine_item args h
        = (Ok (pieces (objects h) (arrays h) args), h')
        ∧ objects h' = objects h
        ∧ arrays h' = consumed (objects h) (arrays h) args.
Proof.
  induction args as [|[t|l] args IH]; intros h Hwf Hargs.
  - by exists h.
  - destruct (IH h Hwf) as (h' & Hm & Ho & Ha); [by eapply refs_exist_cons|].
    exists h'. split; [|done]. cbn [mapM pieces].
    rewrite bind_unfold. cbn [combine_item]. rewrite ret_unfold.
    by rewrite bind_unfold, Hm.
  - destruct (Hargs l) as [obj Hl]; [by left|].
    cbn [mapM pieces consumed]. rewrite bind_unfold. cbn [combine_item].
    rewrite Hl. pose proof (wf_call_stringify l h Hwf) as Hwf1.
    destruct obj as [e c b g|d].
    + destruct (builder_array _ _ _ _ _ _ Hwf Hl) as [xs Ha].
      rewrite (call_stringify_builder _ _ _ _ _ _ _ Hwf Hl Ha) in Hwf1 |- *.
      cbn [snd] in Hwf1.
      destruct (IH _ Hwf1) as (h' & Hm & Ho & Ha'); [by eapply refs_exist_cons|].
      exists h'. split; [|done]. rewrite bind_unfold, Hm. cbn [arrays objects].
      by rewrite Ha.
    + rewrite (call_stringify_combined _ _ _ Hl).
      destruct (IH h Hwf) as (h' & Hm & Ho & Ha'); [by eapply refs_exist_cons|].
      exists h'. split; [|done]. by rewrite bind_unfold, Hm.
Qed.

Lemma call_combine_result h o e c b g args :
  wf h → objects h !! o = Some (Builder e c b g) →
  refs_exist (objects h) args →
  ∃ r e1 c1 b1 g1 cmb,
    objects h !! r = Some (Builder e1 c1 b1 g1)
    ∧ objects h !! cmb = None
    ∧ call_combine o args h
      = (Ok cmb,
         mkHeap (consumed (objects h) (arrays h) args)
                (<[cmb := Combined (pieces (objects h) (arrays h) args)]>
                   (<[r := Builder e1 c1 b1 (Some args)]> (objects h)))).
Proof.
  intros Hwf Ho Hargs.
  unfold call_combine. rewrite bind_unfold.
  rewrite (receiver_Builder _ _ _ _ _ _ Ho).
  assert (∃ e1 c1 b1 g1, objects h !! default o b = Some (Builder e1 c1 b1 g1))
    as (e1 & c1 & b1 & g1 & Hrec).
  { destruct c.
    - destruct (wf_context _ Hwf _ _ _ _ Ho) as (r & g' & -> & Hrr & _). eauto.
    - destruct (wf_facade _ Hwf _ _ _ _ Ho) as [-> _]. eauto. }
  rewrite combine_unfold, bind_unfold.
  rewrite (set_args_Builder _ _ _ _ _ _ _ Hrec).
  pose proof (wf_set_args _ _ _ _ _ _ (Some args) Hwf Hrec) as Hwf1.
  set (h1 := mkHeap _ _) in *.
  assert (∀ l, target (objects h1) l = target (objects h) l) as Ht.
  { intros l. by apply (target_set_args _ _ _ _ _ g1). }
  destruct (mapM_consumed args h1 Hwf1) as (h2 & Hm & Ho2 & Ha2).
  { intros l Hl. destruct (Hargs l Hl) as [obj Hobj]. unfold h1. cbn [objects].
    rewrite lookup_insert. case_decide; eauto. }
  rewrite bind_unfold, Hm. unfold new_object.
  rewrite (pieces_local _ (objects h)) in * by (intros; apply Ht).
  rewrite (consumed_local _ (objects h)) in Ha2 by (intros; apply Ht).
  rewrite Ho2, Ha2. cbn [arrays objects].
  exists (default o b), e1, c1, b1, g1, (fresh (dom (objects h1))).
  split; [done|]. split; [|done].
  destruct (objects h !! fresh (dom (objects h1))) as [x|] eqn:Hx; [|done].
  exfalso. pose proof (fresh_objects_None h1) as Hn.
  assert (is_Some (objects h1 !! fresh (dom (objects h1)))) as [y Hy].
  { unfold h1 at 2. cbn [objects]. rewrite lookup_insert. case_decide; eauto. }
  congruence.
Qed.

Lemma consumed_keeps_empty objs args : ∀ arrs a,
  arrs !! a = Some [] → consumed objs arrs args !! a = Some [].
Proof.
  induction args as [|[t|l] args IH]; intros arrs a Ha; cbn [consumed];
    [done|by apply IH|].
  destruct (objs !! l) as [[e c b g|d]|]; try by apply IH.
  apply IH. rewrite lookup_insert. by case_decide.
Qed.

Lemma consumed_ref objs args l e c b g : ∀ arrs,
  VRef l ∈ args → objs !! l = Some (Builder e c b g) →
  consumed objs arrs args !! e = Some [].
Proof.
  induction args as [|item args IH]; intros arrs Hin Hl.
  - by apply not_elem_of_nil in Hin.
  - apply elem_of_cons in Hin as [<-|Hin].
    + cbn [consumed]. rewrite Hl. apply consumed_keeps_empty, lookup_insert_eq.
    + destruct item as [t|l']; cbn [consumed]; [by apply IH|].
      destruct (objs !! l') as [[e' c' b' g'|d]|]; by apply IH.
Qed.

Lemma consumed_lookup objs args : ∀ arrs a,
  consumed objs arrs args !! a
  = if bool_decide (a ∈ arg_arrays objs args) then Some [] else arrs !! a.
Proof.
  induction args as [|[t|l] args IH]; intros arrs a;
    cbn [consumed arg_arrays].
  - rewrite bool_decide_eq_false_2; [done|]. apply not_elem_of_nil.
  - apply IH.
  - destruct (objs !! l) as [[e c b g|d]|]; [|apply IH..].
    rewrite IH. destruct (decide (a = e)) as [->|Hne].
    + rewrite (bool_decide_eq_true_2 (e ∈ e :: _)) by (by left).
      case_bool_decide; [done|]. apply lookup_insert_eq.
    + rewrite lookup_insert_ne by done.
      case_bool_decide as H1; case_bool_decide as H2; try done.
      * destruct H2. by right.
      * apply elem_of_cons in H2 as [?|?]; done.
Qed.

(** X10.  [combine] with existing arguments returns, and it consumes its
    selectors: every chain passed as an argument is empty after the call,
    while a chain whose array belongs to no argument keeps its fragments. *)
Theorem X10_combine_empties_its_selectors h o e c b g args :
  reachable h → objects h !! o = Some (Builder e c b g) →
  refs_exist (objects h) args →
  ∃ cmb h', call_combine o args h = (Ok cmb, h')
    ∧ (∀ l xs, VRef l ∈ args → chain_of h l xs → chain_of h' l [])
    ∧ (∀ l el xs, elems_of h l = Some el → arrays h !! el = Some xs →
         el ∉ arg_arrays (objects h) args → chain_of h' l xs).
Proof.
  intros Hr Ho Hargs. apply reachable_wf in Hr.
  destruct (call_combine_result _ _ _ _ _ _ args Hr Ho Hargs)
    as (r & e1 & c1 & b1 & g1 & cmb & Hrec & Hfresh & ->).
  eexists _, _. split; [done|].
  assert (∀ l el cl bl gl, objects h !! l = Some (Builder el cl bl gl) →
            ∃ cl' bl' gl',
              (<[cmb := Combined (pieces (objects h) (arrays h) args)]>
                 (<[r := Builder e1 c1 b1 (Some args)]> (objects h))) !! l
              = Some (Builder el cl' bl' gl')) as Hobj.
  { intros l el cl bl gl Hl.
    rewrite lookup_insert_ne by (intros <-; congruence).
    rewrite lookup_insert. case_decide; simplify_eq; eauto. }
  split.
  - intros l xs Hin (el & cl & bl & gl & Hl & Ha).
    destruct (Hobj _ _ _ _ _ Hl) as (cl' & bl' & gl' & Hl').
    exists el, cl', bl', gl'. split; [exact Hl'|]. cbn [arrays].
    by eapply consumed_ref.
  - intros l el xs He Ha Hn. unfold elems_of in He.
    destruct (objects h !! l) as [[el0 cl bl gl|d]|] eqn:Hl; simplify_eq.
    destruct (Hobj _ _ _ _ _ Hl) as (cl' & bl' & gl' & Hl').
    exists el, cl', bl', gl'. split; [exact Hl'|]. cbn [arrays].
    by rewrite consumed_lookup, bool_decide_eq_false_2.
Qed.

Lemma combine_args_exist : refs_exist (objects heap_two_chains) combine_args.
Proof.
  intros l Hl. unfold combine_args in Hl.
  assert (l = 2 ∨ l = 4) as [-> | ->].
  { apply elem_of_cons in Hl as [Hl|Hl]; [injection Hl; auto|].
    apply elem_of_cons in Hl as [Hl|Hl]; [discriminate Hl|].
    apply elem_of_cons in Hl as [Hl|Hl]; [injection Hl; auto|].
    destruct (not_elem_of_nil _ Hl). }
  - eexists. vm_compute. reflexivity.
  - eexists. vm_compute. reflexivity.
Qed.

Lemma X10_combine_empties_witness :
  reachable heap_two_chains
  ∧ objects heap_two_chains !! cssSelectorBuilder
    = Some (Builder 0 false None None)
  ∧ refs_exist (objects heap_two_chains) combine_args
  ∧ ∃ cmb h', call_combine cssSelectorBuilder combine_args heap_two_chains
              = (Ok cmb, h')
      ∧ chain_of h' 2 [] ∧ chain_of h' 4 [].
Proof.
  assert (reachable heap_two_chains) as Hr by (by eexists).
  assert (objects heap_two_chains !! cssSelectorBuilder
          = Some (Builder 0 false None None)) as Ho
    by (vm_compute; reflexivity).
  assert (chain_of heap_two_chains 2
            [fragment Element "div"; fragment Id "main"]) as H2.
  { eexists _, _, _, _. split; vm_compute; reflexivity. }
  assert (chain_of heap_two_chains 4
            [fragment Element "table"; fragment Id "data"]) as H4.
  { eexists _, _, _, _. split; vm_compute; reflexivity. }
  split; [exact Hr|]. split; [exact Ho|]. split; [exact combine_args_exist|].
  destruct (X10_combine_empties_its_selectors _ _ _ _ _ _ combine_args Hr Ho
              combine_args_exist) as (cmb & h' & Hc & Hall & _).
  exists cmb, h'. split; [exact Hc|]. split.
  - apply (Hall 2 _ (list_elem_of_here _ _) H2).
  - apply (Hall 4 _ (list_elem_of_further _ _ _
                       (list_elem_of_further _ _ _ (list_elem_of_here _ _))) H4).
Defined.

Lemma own_text_insert objs arrs e args :
  e ∉ arg_arrays objs args →
  map (own_text objs (<[e := []]> arrs)) args = map (own_text objs arrs) args.
Proof.
  induction args as [|[t|l] args IH]; intros Hn; cbn [map arg_arrays] in *.
  - done.
  - by rewrite IH.
  - cbn [own_text]. destruct (objs !! l) as [[e' c' b' g'|d]|]; [|by rewrite IH..].
    apply not_elem_of_cons in Hn as [Hne Hn].
    by rewrite lookup_insert_ne, IH.
Qed.

Lemma pieces_separate objs args : ∀ arrs,
  refs_exist objs args → NoDup (arg_arrays objs args) →
  pieces objs arrs args = map (own_text objs arrs) args.
Proof.
  induction args as [|[t|l] args IH]; intros arrs Hex Hnd;
    cbn [pieces map arg_arrays own_text] in *.
  - done.
  - rewrite IH; [done|by eapply refs_exist_cons|done].
  - destruct (Hex l) as [obj Hl]; [by left|]. rewrite Hl in *.
    destruct obj as [e c b g|d].
    + apply NoDup_cons in Hnd as [Hn Hnd].
      rewrite IH; [|by eapply refs_exist_cons|done].
      by rewrite own_text_insert.
    + rewrite IH; [done|by eapply refs_exist_cons|done].
Qed.

(** X11.  When the selectors passed to [combine] are on different arrays,
    the text of the result is the concatenation, in argument order, of the
    text each argument had before the call: a token with a space on each
    side, a chain by its fragments, a combined selector by its data. *)
Theorem X11_combine_of_separate_chains h o e c b g args :
  reachable h → objects h !! o = Some (Builder e c b g) →
  refs_exist (objects h) args →
  NoDup (arg_arrays (objects h) args) →
  ∃ cmb h', call_combine o args h = (Ok cmb, h')
    ∧ call_stringify cmb h'
      = (Ok (concat_text (map (own_text (objects h) (arrays h)) args)), h').
Proof.
  intros Hr Ho Hargs Hnd. apply reachable_wf in Hr.
  destruct (call_combine_result _ _ _ _ _ _ args Hr Ho Hargs)
    as (r & e1 & c1 & b1 & g1 & cmb & Hrec & Hfresh & ->).
  eexists _, _. split; [done|].
  erewrite call_stringify_combined by apply lookup_insert_eq.
  by rewrite join_concat_text, (pieces_separate _ _ _ Hargs Hnd).
Qed.

Lemma X11_combine_separate_witness :
  reachable heap_two_chains
  ∧ objects heap_two_chains !! cssSelectorBuilder
    = Some (Builder 0 false None None)
  ∧ refs_exist (objects heap_two_chains) combine_args
  ∧ NoDup (arg_arrays (objects heap_two_chains) combine_args)
  ∧ ∃ cmb h', call_combine cssSelectorBuilder combine_args heap_two_chains
              = (Ok cmb, h')
      ∧ call_stringify cmb h' = (Ok "div#main + table#data", h').
Proof.
  assert (NoDup (arg_arrays (objects heap_two_chains) combine_args)) as Hnd.
  { assert (arg_arrays (objects heap_two_chains) combine_args = [1; 2]) as ->
      by (vm_compute; reflexivity).
    apply NoDup_cons. split; [|apply NoDup_singleton].
    intros H. apply list_elem_of_singleton in H. discriminate H. }
  assert (reachable heap_two_chains) as Hr by (by eexists).
  assert (objects heap_two_chains !! cssSelectorBuilder
          = Some (Builder 0 false None None)) as Ho
    by (vm_compute; reflexivity).
  split; [exact Hr|]. split; [exact Ho|]. split; [exact combine_args_exist|].
  split; [exact Hnd|].
  destruct (X11_combine_of_separate_chains _ _ _ _ _ _ combine_args Hr Ho
              combine_args_exist Hnd) as (cmb & h' & Hc & Hs).
  exists cmb, h'. split; [exact Hc|]. rewrite Hs. f_equal.
Defined.

Lemma concat_text_app l1 l2 :
  concat_text (l1 ++ l2) = (concat_text l1 ++ concat_text l2)%string.
Proof.
  induction l1 as [|x l1 IH]; [done|].
  cbn [app concat_text foldr]. fold (concat_text (l1 ++ l2)).
  fold (concat_text l1). by rewrite IH, append_assoc'.
Qed.

Lemma consumed_comm objs args1 args2 arrs :
  consumed objs (consumed objs arrs args1) args2
  = consumed objs (consumed objs arrs args2) args1.
Proof.
  apply map_eq. intros a. rewrite !consumed_lookup.
  by repeat case_bool_decide.
Qed.

Lemma pieces_arrays_local objs args : ∀ arrs arrs',
  (∀ a, a ∈ arg_arrays objs args → arrs !! a = arrs' !! a) →
  pieces objs arrs args = pieces objs arrs' args.
Proof.
  induction args as [|[t|l] args IH]; intros arrs arrs' Hag;
    cbn [pieces arg_arrays] in *.
  - done.
  - by rewrite (IH arrs arrs').
  - destruct (objs !! l) as [[e c b g|d]|]; [|by rewrite (IH arrs arrs')|done].
    rewrite (Hag e) by (by left). f_equal. apply IH.
    intros a Ha. rewrite !lookup_insert. case_decide; [done|].
    apply Hag. by right.
Qed.

Lemma pieces_after_others objs arrs args others :
  (∀ a, a ∈ arg_arrays objs args → a ∉ arg_arrays objs others) →
  pieces objs (consumed objs arrs others) args = pieces objs arrs args.
Proof.
  intros Hd. apply pieces_arrays_local. intros a Ha.
  rewrite consumed_lookup, bool_decide_eq_false_2; [done|by apply Hd].
Qed.

(** X12.  Passing the result of [combine(args1)] as an argument of another
    [combine] gives the same text as passing [args1] themselves in its place,
    provided no selector before it shares an array with one of [args1]. *)
Theorem X12_nested_combine_flattens h o e c b g args0 args1 args2 :
  reachable h → objects h !! o = Some (Builder e c b g) →
  refs_exist (objects h) args0 → refs_exist (objects h) args1 →
  refs_exist (objects h) args2 →
  (∀ a, a ∈ arg_arrays (objects h) args0 →
        a ∉ arg_arrays (objects h) args1) →
  ∃ c1 h1 c2 h2 c0 h0 text,
    call_combine o args1 h = (Ok c1, h1)
    ∧ call_combine o (args0 ++ VRef c1 :: args2) h1 = (Ok c2, h2)
    ∧ call_combine o (args0 ++ args1 ++ args2) h = (Ok c0, h0)
    ∧ call_stringify c2 h2 = (Ok text, h2)
    ∧ call_stringify c0 h0 = (Ok text, h0).
Proof.
  intros Hr Ho Hex0 Hex1 Hex2 Hdis. apply reachable_wf in Hr.
  pose proof (wf_call_combine o args1 h Hr) as Hwf1.
  destruct (call_combine_result _ _ _ _ _ _ args1 Hr Ho Hex1)
    as (r & e1 & c1 & b1 & g1 & cmb1 & Hrec & Hfresh & Hc1).
  rewrite Hc1 in Hwf1. cbn [snd] in Hwf1.
  set (d1 := pieces (objects h) (arrays h) args1) in *.
  set (h1 := mkHeap _ _) in *.
  assert (∀ l, is_Some (objects h !! l) →
               target (objects h1) l = target (objects h) l) as Ht.
  { intros l Hl. unfold h1. cbn [objects].
    rewrite target_fresh; [by apply (target_set_args _ _ _ _ _ g1)| |].
    - rewrite lookup_insert_ne; [done|]. intros <-. congruence.
    - rewrite lookup_insert. case_decide; eauto. }
  assert (∀ l, is_Some (objects h !! l) → is_Some (objects h1 !! l)) as Hmono.
  { intros l Hl. pose proof (Ht l Hl) as Htl. unfold target in Htl.
    destruct Hl as [x Hx]. rewrite Hx in Htl.
    destruct (objects h1 !! l); [eauto|]. by destruct x. }
  assert (∃ c' b' g', objects h1 !! o = Some (Builder e c' b' g'))
    as (c' & b' & g' & Ho1).
  { pose proof (Ht o (mk_is_Some _ _ Ho)) as Hto. unfold target in Hto.
    rewrite Ho in Hto. destruct (objects h1 !! o) as [[]|]; simplify_eq. eauto. }
  assert (objects h1 !! cmb1 = Some (Combined d1)) as Hcmb1
    by apply lookup_insert_eq.
  assert (refs_exist (objects h1) args0) as Hex0'
    by (intros l Hl; by apply Hmono, Hex0).
  assert (refs_exist (objects h1) (args0 ++ VRef cmb1 :: args2)) as Hex'.
  { apply refs_exist_app. split; [done|].
    intros l [Hl|Hl]%elem_of_cons; [injection Hl as ->; eauto|].
    by apply Hmono, Hex2. }
  destruct (call_combine_result _ _ _ _ _ _ _ Hwf1 Ho1 Hex')
    as (r2 & e2 & c2 & b2 & g2 & cmb2 & _ & _ & Hc2).
  assert (refs_exist (objects h) (args0 ++ args1 ++ args2)) as Hex.
  { apply refs_exist_app. split; [done|]. by apply refs_exist_app. }
  destruct (call_combine_result _ _ _ _ _ _ _ Hr Ho Hex)
    as (r0 & e0 & c0 & b0 & g0 & cmb0 & _ & _ & Hc0).
  eexists _, _, _, _, _, _, _.
  split; [exact Hc1|]. split; [exact Hc2|]. split; [exact Hc0|].
  erewrite !call_stringify_combined by apply lookup_insert_eq.
  split; [reflexivity|]. f_equal. f_equal.
  rewrite !join_concat_text.
  (* the nested text *)
  rewrite (pieces_app _ _ _ _ Hex0'). cbn [pieces]. rewrite Hcmb1.
  rewrite (pieces_local (objects h1) (objects h) args0)
    by (intros l Hl; apply Ht, Hex0, Hl).
  rewrite (pieces_local (objects h1) (objects h) args2)
    by (intros l Hl; apply Ht, Hex2, Hl).
  rewrite (consumed_local (objects h1) (objects h) args0)
    by (intros l Hl; apply Ht, Hex0, Hl).
  unfold h1 at 1 2. cbn [arrays].
  rewrite (pieces_after_others _ _ args0 args1 Hdis).
  (* the flat text *)
  rewrite (pieces_app _ _ _ _ Hex0), (pieces_app _ _ _ _ Hex1).
  rewrite (pieces_after_others _ _ args1 args0)
    by (intros a Ha Ha0; by apply (Hdis a)).
  rewrite (consumed_comm _ args0 args1).
  rewrite !concat_text_app. cbn [concat_text foldr].
  fold (concat_text (pieces (objects h)
          (consumed (objects h) (consumed (objects h) (arrays h) args1) args0)
          args2)).
  by rewrite join_concat_text.
Qed.

Lemma X12_nested_combine_witness :
  reachable heap_two_chains
  ∧ objects heap_two_chains !! cssSelectorBuilder
    = Some (Builder 0 false None None)
  ∧ refs_exist (objects heap_two_chains) nested_args0
  ∧ refs_exist (objects heap_two_chains) nested_args1
  ∧ refs_exist (objects heap_two_chains) []
  ∧ (∀ a, a ∈ arg_arrays (objects heap_two_chains) nested_args0 →
          a ∉ arg_arrays (objects heap_two_chains) nested_args1)
  ∧ ∃ c1 h1 c2 h2 c0 h0 text,
      call_combine cssSelectorBuilder nested_args1 heap_two_chains
      = (Ok c1, h1)
      ∧ call_combine cssSelectorBuilder (nested_args0 ++ VRef c1 :: []) h1
        = (Ok c2, h2)
      ∧ call_combine cssSelectorBuilder
          (nested_args0 ++ nested_args1 ++ []) heap_two_chains = (Ok c0, h0)
      ∧ call_stringify c2 h2 = (Ok text, h2)
      ∧ call_stringify c0 h0 = (Ok text, h0).
Proof.
  assert (refs_exist (objects heap_two_chains) nested_args0) as H0.
  { intros l Hl. apply combine_args_exist. unfold combine_args.
    unfold nested_args0 in Hl.
    apply elem_of_cons in Hl as [Hl|Hl]; [rewrite Hl; apply list_elem_of_here|].
    apply elem_of_cons in Hl as [Hl|Hl]; [discriminate Hl|].
    destruct (not_elem_of_nil _ Hl). }
  assert (refs_exist (objects heap_two_chains) nested_args1) as H1.
  { intros l Hl. apply combine_args_exist. unfold combine_args.
    unfold nested_args1 in Hl.
    apply elem_of_cons in Hl as [Hl|Hl]; [|destruct (not_elem_of_nil _ Hl)].
    rewrite Hl. apply list_elem_of_further, list_elem_of_further,
      list_elem_of_here. }
  assert (refs_exist (objects heap_two_chains) []) as H2.
  { intros l Hl. destruct (not_elem_of_nil _ Hl). }
  assert (∀ a, a ∈ arg_arrays (objects heap_two_chains) nested_args0 →
               a ∉ arg_arrays (objects heap_two_chains) nested_args1) as Hd.
  { assert (arg_arrays (objects heap_two_chains) nested_args0 = [1]) as ->
      by (vm_compute; reflexivity).
    assert (arg_arrays (objects heap_two_chains) nested_args1 = [2]) as ->
      by (vm_compute; reflexivity).
    intros a Ha Ha'. apply list_elem_of_singleton in Ha, Ha'.
    rewrite Ha in Ha'. discriminate Ha'. }
  assert (reachable heap_two_chains) as Hr by (by eexists).
  assert (objects heap_two_chains !! cssSelectorBuilder
          = Some (Builder 0 false None None)) as Ho
    by (vm_compute; reflexivity).
  split; [exact Hr|]. split; [exact Ho|]. split; [exact H0|].
  split; [exact H1|]. split; [exact H2|]. split; [exact Hd|].
  exact (X12_nested_combine_flattens _ _ _ _ _ _ _ _ _ Hr Ho H0 H1 H2 Hd).
Defined.

Lemma render_app xs ys : render (xs ++ ys) = (render xs ++ render ys)%string.
Proof.
  induction xs as [|x xs IH]; [done|].
  cbn [app]. rewrite !render_cons, IH. by rewrite !append_assoc'.
Qed.

Lemma call_keeps_objects k o v h l obj :
  wf h → objects h !! l = Some obj →
  objects (snd (call k o v h)) !! l = Some obj.
Proof.
  intros Hwf Hl.
  assert (∀ x, <[fresh (dom (objects h)) := x]> (objects h) !! l = Some obj)
    as Hfresh.
  { intros x. rewrite lookup_insert_ne; [done|].
    intros <-. by rewrite fresh_objects_None in Hl. }
  destruct (objects h !! o) as [[e c b g|d]|] eqn:Ho.
  - destruct c.
    + destruct (builder_array _ _ _ _ _ _ Hwf Ho) as [xs Ha].
      destruct (call_context _ _ _ _ _ _ k v Hwf Ho Ha) as (r & g' & _ & ->).
      destruct (check xs (fragment k v)); apply Hfresh.
    + rewrite (call_facade _ _ _ _ _ _ _ Hwf Ho). apply Hfresh.
  - by rewrite (call_TypeError_Combined _ _ _ _ _ Ho).
  - by rewrite (call_TypeError_None _ _ _ _ Ho).
Qed.

Lemma chain_keeps_objects calls : ∀ o h o' h' l obj,
  wf h → objects h !! l = Some obj →
  chain calls o h = (Ok o', h') → objects h' !! l = Some obj.
Proof.
  induction calls as [|[k v] calls IH]; intros o h o' h' l obj Hwf Hl Hc.
  - cbn in Hc. by injection Hc as <- <-.
  - cbn [chain] in Hc. rewrite bind_unfold in Hc.
    pose proof (wf_call k o v h Hwf) as Hwf1.
    pose proof (call_keeps_objects k o v h l obj Hwf Hl) as Hl1.
    destruct (call k o v h) as [[o1|err] h1]; [|done].
    by apply (IH o1 h1 o' h').
Qed.

(** X6.  After a chain of calls on a handle that go through, the old handle
    holds its former fragments followed by the new ones, [stringify()] on the
    last handle returns the former text followed by the text of the calls,
    and the old handle is then empty too. *)
Theorem X6_extended_chain_renders_concatenation h o e b g xs calls o' h' :
  reachable h → objects h !! o = Some (Builder e true b g) →
  arrays h !! e = Some xs →
  chain calls o h = (Ok o', h') →
  chain_of h' o (xs ++ fragments calls)
  ∧ ∃ h'', call_stringify o' h'
           = (Ok (render xs ++ selector_text calls)%string, h'')
           ∧ chain_of h'' o [].
Proof.
  intros Hr Ho Ha Hc. apply reachable_wf in Hr.
  destruct (chain_context calls _ _ _ _ _ _ _ _ Hr Ho Ha Hc)
    as (Hwf' & (b' & g' & Ho') & Ha').
  pose proof (chain_keeps_objects calls _ _ _ _ _ _ Hr Ho Hc) as Ho0.
  split; [by exists e, true, b, g|].
  rewrite (call_stringify_builder _ _ _ _ _ _ _ Hwf' Ho' Ha').
  rewrite render_app, render_fragments.
  eexists. split; [done|]. exists e, true, b, g. split; [done|].
  apply lookup_insert_eq.
Qed.

Lemma X6_extended_chain_witness :
  reachable heap_element
  ∧ objects heap_element !! 1 = Some (Builder 1 true (Some 1) None)
  ∧ arrays heap_element !! 1 = Some [fragment Element "e"]
  ∧ ∃ o' h', chain [(Id, "x"); (Class_, "y")] 1 heap_element = (Ok o', h')
      ∧ chain_of h' 1 [fragment Element "e"; fragment Id "x";
                       fragment Class_ "y"]
      ∧ ∃ h'', call_stringify o' h' = (Ok "e#x.y", h'') ∧ chain_of h'' 1 [].
Proof.
  assert (reachable heap_element) as Hr by (by eexists).
  assert (objects heap_element !! 1 = Some (Builder 1 true (Some 1) None))
    as Ho by (vm_compute; reflexivity).
  assert (arrays heap_element !! 1 = Some [fragment Element "e"]) as Ha
    by (vm_compute; reflexivity).
  split; [exact Hr|]. split; [exact Ho|]. split; [exact Ha|].
  eexists _, _. split; [vm_compute; reflexivity|].
  eapply (X6_extended_chain_renders_concatenation heap_element 1 _ _ _ _
            [(Id, "x"); (Class_, "y")] _ _ Hr Ho Ha).
  vm_compute; reflexivity.
Defined.

Lemma arg_arrays_ref objs args l e c b g :
  VRef l ∈ args → objs !! l = Some (Builder e c b g) →
  e ∈ arg_arrays objs args.
Proof.
  induction args as [|item args IH]; intros Hin Hl.
  - by apply not_elem_of_nil in Hin.
  - apply elem_of_cons in Hin as [<-|Hin].
    + cbn [arg_arrays]. rewrite Hl. by left.
    + destruct item as [t|l']; cbn [arg_arrays]; [by apply IH|].
      destruct (objs !! l') as [[e' c' b' g'|d]|]; [right| |]; by apply IH.
Qed.

